(** * blugnu/database

    A shallow embedding of the connection layer of the package: the
    connector rotation of [connectany], the two retry strategies
    ([noretry], [retry]), the configuration functions and [Transact].

    The Go code mutates one [*connection] through a pointer and calls out
    to [database/sql].  Here a computation is a function on a [world]
    holding that connection; the answers of the driver are given by a
    [Backend]; every call that leaves the package is recorded in a log, so
    that "how many times" and "in which order" are statements about the
    log. *)

From Stdlib Require Import ZArith Lia.
From stdpp Require Import base decidable option list list_numbers strings.

(** ** Machine integers

    [mru] and the loop index of [connectany] are Go [int]s (64 bits, two's
    complement).  Addition wraps; [%] truncates towards zero ([Z.rem]). *)

Definition int_min : Z := (- 2 ^ 63)%Z.
Definition int_max : Z := (2 ^ 63 - 1)%Z.

Definition wrap_int (z : Z) : Z := ((z + 2 ^ 63) `mod` 2 ^ 64 - 2 ^ 63)%Z.
Definition int_add (a b : Z) : Z := wrap_int (a + b).
Definition int_rem (a b : Z) : Z := Z.rem a b.

(** ** Handles

    [*sql.DB] and [*sql.Tx] are pointers; this layer only stores them,
    compares them with nil and hands them back to the driver.  A handle is
    its identity, the nil pointer is [None]. *)

Definition sql_DB := nat.
Definition sql_Tx := nat.

(** [context.Context]: the deadlines stacked on the background context. *)
Definition Context_ := list Z.
Definition Background : Context_ := [].
Definition WithTimeout (ctx : Context_) (t : Z) : Context_ := t :: ctx.

(** ** Connectors

    [Connector] is an interface with two methods.  Interface values are
    compared with [==] (by [slices.Contains]), which is decidable
    equality on the values. *)

Class ConnectorType := {
  Connector : Type;
  Connector_eq_dec :: EqDecision Connector;
  Driver : Connector → string;
  ConnectionString : Connector → string;
}.

(** ** Errors (errors.go, and the parts of package [errors] used) *)

#[local] Set Warnings "-register-all".

Section errors.
Context `{ConnectorType}.

(** An [error] value that is not nil.  A nil error is [None] of
    [option error]. *)
Inductive error : Type :=
| ErrBadConn                                   (* driver.ErrBadConn *)
| errorString (s : string)                     (* errors.New(s) *)
| wrapError (s : string) (e : error)           (* fmt.Errorf("s: %w", e) *)
| Error (s : string)                           (* type Error string *)
| ConfigurationError (e : option error)
| ConnectionFailedError (e : option error)
| ConnectionError (cnc : Connector) (op : string) (e : option error)
| TransactionError (txn op : string) (e : option error)
| joinError (errs : list error).               (* errors.Join *)

Definition ErrWithDbAndWithConnectorsIsInvalid : error :=
  Error "cannot use WithConnector(s) when using WithDb".
Definition ErrWithDbAndWithConfigurationIsInvalid : error :=
  Error "cannot use WithConfiguration when using WithDb".
Definition ErrNoConnectorsConfigured : error :=
  Error "no connectors configured or database specified".
Definition ErrPingTimeoutIsInvalid : error :=
  Error "ping timeout must be greater than or equal to zero".

(** [a == b] on error values. *)
Fixpoint error_eqb (a b : error) {struct a} : bool :=
  match a, b with
  | ErrBadConn, ErrBadConn => true
  | errorString s, errorString s' => bool_decide (s = s')
  | wrapError s e, wrapError s' e' => bool_decide (s = s') && error_eqb e e'
  | Error s, Error s' => bool_decide (s = s')
  | ConfigurationError e, ConfigurationError e' =>
      match e, e' with
      | Some x, Some x' => error_eqb x x'
      | None, None => true
      | _, _ => false
      end
  | ConnectionFailedError e, ConnectionFailedError e' =>
      match e, e' with
      | Some x, Some x' => error_eqb x x'
      | None, None => true
      | _, _ => false
      end
  | ConnectionError cnc op e, ConnectionError cnc' op' e' =>
      bool_decide (cnc = cnc') && bool_decide (op = op') &&
      match e, e' with
      | Some x, Some x' => error_eqb x x'
      | None, None => true
      | _, _ => false
      end
  | TransactionError txn op e, TransactionError txn' op' e' =>
      bool_decide (txn = txn') && bool_decide (op = op') &&
      match e, e' with
      | Some x, Some x' => error_eqb x x'
      | None, None => true
      | _, _ => false
      end
  | joinError xs, joinError ys =>
      (fix go (xs ys : list error) {struct xs} : bool :=
         match xs, ys with
         | [], [] => true
         | x :: xs', y :: ys' => error_eqb x y && go xs' ys'
         | _, _ => false
         end) xs ys
  | _, _ => false
  end.

(** The zero value of the field [op]: [TransactionError{txn: name,
    error: err}] carries no phase tag. *)
Definition untagged : string := EmptyString.

(** The [Is(target)] methods of errors.go; the other error types have
    none. *)
Definition error_Is (e target : error) : bool :=
  match e, target with
  | ConfigurationError _, ConfigurationError _ => true
  | ConnectionFailedError _, ConnectionFailedError _ => true
  | ConnectionError _ _ _, ConnectionError _ _ _ => true
  | TransactionError txn op _, TransactionError txn' op' _ =>
      bool_decide (txn = txn') && bool_decide (op = op')
  | _, _ => false
  end.

(** [errors.Is(err, target)] for non-nil [err] and [target]: compare,
    ask the [Is] method, then descend through [Unwrap() error] or
    [Unwrap() []error]. *)
Fixpoint errors_Is (err target : error) {struct err} : bool :=
  error_eqb err target || error_Is err target ||
  match err with
  | wrapError _ e => errors_Is e target
  | ConfigurationError (Some e) => errors_Is e target
  | ConnectionFailedError (Some e) => errors_Is e target
  | ConnectionError _ _ (Some e) => errors_Is e target
  | TransactionError _ _ (Some e) => errors_Is e target
  | joinError errs => existsb (λ e, errors_Is e target) errs
  | _ => false
  end.

(** [errors.Join(errs...)]: nil values are discarded; nil when nothing
    is left. *)
Definition errors_Join (errs : list (option error)) : option error :=
  match omap id errs with
  | [] => None
  | es => Some (joinError es)
  end.
End errors.

(** ** The world outside the package

    What [database/sql] and the Go runtime answer.  The answers do not
    change while one call of the package runs. *)

Class Backend `{ConnectorType} := {
  sql_Open : string → string → option sql_DB * option error;
  DB_PingContext : Context_ → sql_DB → option error;
  DB_Close : sql_DB → option error;
  DB_BeginTx : sql_DB → sql_Tx + error;
  Tx_Commit : sql_Tx → option error;
  Tx_Rollback : sql_Tx → option error;
  debug_Stack : string;          (* the text of debug.Stack() *)
  PingTimeout : Z;               (* var PingTimeout *)
}.

Section model.
Context `{Backend}.
(** The variables captured by the closures of the caller. *)
Context {U : Type}.

(** *** connection.go: the connection *)

(** The values the [connect] field takes: nil, [c.connectany],
    [c.connectdb]. *)
Inductive connect_kind := connect_nil | connect_connectany | connect_connectdb.

(** The values of the embedded [trymethod] interface: nil, [&noretry{c}],
    [&retry{c}], where [c] is the connection that embeds it. *)
Inductive trymethod_kind := trymethod_nil | noretry | retry.

Record connection := Connection {
  db : option sql_DB;
  pingTimeout : Z;
  connectors : list Connector;
  mru : Z;
  configure : option (option sql_DB → option error);
  connect : connect_kind;
  open : string → string → option sql_DB * option error;
  trymethod : trymethod_kind;
}.

(** Calls that leave the package, in the order they are made. *)
Inductive event :=
| EvConnectAny                                  (* a rotation pass starts *)
| EvOpen (ix : Z) (driver cs : string)          (* c.open for connectors[ix] *)
| EvPing (ctx : Context_) (d : sql_DB)          (* db.PingContext(ctx) *)
| EvConfigure (d : option sql_DB)               (* c.configure(c.db) *)
| EvClose (d : sql_DB)                          (* db.Close() *)
| EvOp (d : option sql_DB)                      (* op(c.db) in try *)
| EvBeginTx (d : sql_DB)                        (* db.BeginTx *)
| EvWork (t : option sql_Tx)                    (* op(&transaction{tx}) *)
| EvCommit (t : sql_Tx)                         (* tx.Commit() *)
| EvRollback (t : sql_Tx).                      (* tx.Rollback() *)

Record world := World {
  conn : connection;          (* the *connection all methods share *)
  tx : option sql_Tx;         (* the variable tx of Transact *)
  heap : U;
  log : list event;
}.

(** *** Computations

    A call returns, panics with the value [recover()] would give, or
    runs out of fuel (only the endless loop of [retry.try] can). *)
Inductive result (A : Type) :=
| Ok (a : A)
| Panic (r : option string)
| OutOfFuel.
Global Arguments Ok {A} a.
Global Arguments Panic {A} r.
Global Arguments OutOfFuel {A}.

Definition M (A : Type) : Type := world → result A * world.

Global Instance M_ret : MRet M := λ A a w, (Ok a, w).
Global Instance M_bind : MBind M := λ A B f m w,
  match m w with
  | (Ok a, w') => f a w'
  | (Panic r, w') => (Panic r, w')
  | (OutOfFuel, w') => (OutOfFuel, w')
  end.

Definition panic {A} (r : string) : M A := λ w, (Panic (Some r), w).
Definition out_of_fuel {A} : M A := λ w, (OutOfFuel, w).
Definition get_conn : M connection := λ w, (Ok (conn w), w).
Definition emit (e : event) : M unit := λ w,
  (Ok (), World (conn w) (tx w) (heap w) (log w ++ [e])).
Definition set_conn (c : connection) : M unit := λ w,
  (Ok (), World c (tx w) (heap w) (log w)).
Definition get_tx : M (option sql_Tx) := λ w, (Ok (tx w), w).
Definition set_tx (t : option sql_Tx) : M unit := λ w,
  (Ok (), World (conn w) t (heap w) (log w)).

Definition with_db (d : option sql_DB) (c : connection) : connection :=
  Connection d (pingTimeout c) (connectors c) (mru c) (configure c)
             (connect c) (open c) (trymethod c).
Definition with_mru (ix : Z) (c : connection) : connection :=
  Connection (db c) (pingTimeout c) (connectors c) ix (configure c)
             (connect c) (open c) (trymethod c).

Definition set_db (d : option sql_DB) : M unit :=
  c ← get_conn; set_conn (with_db d c).
Definition set_mru (ix : Z) : M unit :=
  c ← get_conn; set_conn (with_mru ix c).

Definition nil_dereference : string :=
  "runtime error: invalid memory address or nil pointer dereference".
Definition index_out_of_range : string :=
  "runtime error: index out of range".

(** [c.connectors[ix]] *)
Definition connectors_at (ix : Z) : M Connector :=
  c ← get_conn;
  if decide (0 ≤ ix)%Z then
    match connectors c !! Z.to_nat ix with
    | Some cnc => mret cnc
    | None => panic index_out_of_range
    end
  else panic index_out_of_range.

(** The [for] loop of [connectany], with [n] iterations left.  [ix] and
    [errs] are the local variables; a [continue] is the recursive call, the
    [break] returns. *)
Fixpoint connectany_loop (ctx : Context_) (n : nat) (ix : Z)
    (errs : list (option error)) : M (list (option error)) :=
  match n with
  | O => mret errs
  | S n' =>
      c ← get_conn;
      let ix := int_rem (int_add ix 1) (Z.of_nat (length (connectors c))) in
      cnc ← connectors_at ix;
      emit (EvOpen ix (Driver cnc) (ConnectionString cnc));;
      match open c (Driver cnc) (ConnectionString cnc) with
      | (_, Some err) =>
          connectany_loop ctx n' ix
            (errs ++ [Some (ConnectionError cnc "open db" (Some err))])
      | (None, None) => panic nil_dereference      (* db.PingContext on nil *)
      | (Some d, None) =>
          emit (EvPing ctx d);;
          match DB_PingContext ctx d with
          | Some err =>
              connectany_loop ctx n' ix
                (errs ++ [Some (ConnectionError cnc "ping" (Some err))])
          | None => set_db (Some d);; set_mru ix;; mret errs
          end
      end
  end.

Definition connectany (ctx : Context_) : M (option error) :=
  emit EvConnectAny;;
  c ← get_conn;
  let curr := mru c in
  let n := length (connectors c) in
  errs ← connectany_loop ctx n curr (replicate n None);
  c ← get_conn;
  if decide (mru c = curr) then
    mret (Some (ConnectionFailedError (errors_Join errs)))
  else
    match configure c with
    | Some cfg =>
        emit (EvConfigure (db c));;
        match cfg (db c) with
        | Some err => mret (Some (ConfigurationError (Some err)))
        | None => mret None
        end
    | None => mret None
    end.

(** *** trymethod.go, and the methods that go through [c.try]

    [connectdb] is [c.Ping(ctx)] and [Ping] is [c.try] of a closure, which
    may be [retry.try], whose [reconnect] calls [c.connect] again.  The
    functions below take the [try] of the connection as an argument, and
    [retry_try] closes the knot by recursion on its fuel. *)

Definition operation : Type := option sql_DB → M (option error).

(** How a function supplied by the caller is left: it returns an error
    (possibly nil) or it panics. *)
Inductive exit :=
| Returns (err : option error)
| Panics (r : option string).

(** A closure of the caller: it is handed a handle and works on its own
    variables. *)
Definition closure {K : Type} (op : K → U → exit * U)
    : K → M (option error) := λ k w,
  let (x, h) := op k (heap w) in
  (match x with Returns err => Ok err | Panics r => Panic r end,
   World (conn w) (tx w) h (log w)).

Definition close (force : bool) : M (option error) :=
  c ← get_conn;
  match db c with
  | Some d =>
      set_db None;;
      emit (EvClose d);;
      match DB_Close d with
      | Some err => if negb force then mret (Some err) else mret None
      | None => mret None
      end
  | None => mret None
  end.

Definition Close : M (option error) := close false.

(** [noretry.try] *)
Definition noretry_try (op : operation) : M (option error) :=
  c ← get_conn;
  emit (EvOp (db c));;
  op (db c).

(** The promoted method [c.try]: dispatch on the embedded interface. *)
Definition try_with (retry_try : operation → M (option error))
    (op : operation) : M (option error) :=
  c ← get_conn;
  match trymethod c with
  | trymethod_nil => panic nil_dereference
  | noretry => noretry_try op
  | retry => retry_try op
  end.

(** The closure [Ping] passes to [c.try]. *)
Definition Ping_op (ctx : Context_) : operation := λ d,
  c ← get_conn;
  let t := pingTimeout c in
  let t := if decide (t = 0%Z) then PingTimeout else t in
  let ctx := WithTimeout ctx t in
  match d with
  | Some d => emit (EvPing ctx d);; mret (DB_PingContext ctx d)
  | None => panic nil_dereference
  end.

Definition Ping_with (try_ : operation → M (option error))
    (ctx : Context_) : M (option error) :=
  try_with try_ (Ping_op ctx).

Definition connectdb_with (try_ : operation → M (option error))
    (ctx : Context_) : M (option error) :=
  Ping_with try_ ctx.

(** [c.connect(ctx)] *)
Definition connect_with (try_ : operation → M (option error))
    (ctx : Context_) : M (option error) :=
  c ← get_conn;
  match connect c with
  | connect_nil => panic nil_dereference
  | connect_connectany => connectany ctx
  | connect_connectdb => connectdb_with try_ ctx
  end.

Definition reconnect_with (try_ : operation → M (option error))
    (ctx : Context_) : M (option error) :=
  close true;;
  connect_with try_ ctx.

(** [retry.try]: one unit of fuel for each turn of the [for] loop. *)
Fixpoint retry_try (fuel : nat) (ctx : Context_) (op : operation)
    : M (option error) :=
  match fuel with
  | O => out_of_fuel
  | S fuel' =>
      c ← get_conn;
      emit (EvOp (db c));;
      err ← op (db c);
      match err with
      | None => mret None
      | Some e =>
          if negb (errors_Is e ErrBadConn) then mret (Some e)
          else
            cncerr ← reconnect_with (retry_try fuel' ctx) ctx;
            match cncerr with
            | Some ce => mret (errors_Join [Some e; Some ce])
            | None => retry_try fuel' ctx op
            end
      end
  end.

Definition connection_try (fuel : nat) (ctx : Context_) (op : operation)
    : M (option error) :=
  try_with (retry_try fuel ctx) op.

Definition Ping (fuel : nat) (ctx : Context_) : M (option error) :=
  Ping_with (retry_try fuel ctx) ctx.

Definition connectdb (fuel : nat) (ctx : Context_) : M (option error) :=
  connectdb_with (retry_try fuel ctx) ctx.

Definition connection_connect (fuel : nat) (ctx : Context_)
    : M (option error) :=
  connect_with (retry_try fuel ctx) ctx.

Definition reconnect (fuel : nat) (ctx : Context_) : M (option error) :=
  reconnect_with (retry_try fuel ctx) ctx.

(** *** Transact *)

(** The closure that begins the transaction; it assigns the variable
    [tx] of [Transact]. *)
Definition begin_op : operation := λ d,
  match d with
  | None => panic nil_dereference
  | Some d =>
      emit (EvBeginTx d);;
      match DB_BeginTx d with
      | inl t => set_tx (Some t);; mret None
      | inr err => set_tx None;; mret (Some err)
      end
  end.

Definition tx_Commit (t : option sql_Tx) : M (option error) :=
  match t with
  | Some t => emit (EvCommit t);; mret (Tx_Commit t)
  | None => panic nil_dereference
  end.

Definition tx_Rollback (t : option sql_Tx) : M (option error) :=
  match t with
  | Some t => emit (EvRollback t);; mret (Tx_Rollback t)
  | None => panic nil_dereference
  end.

(** Runs [m]; a panic is stopped and its value handed over, as a
    deferred function that calls [recover()] sees it. *)
Definition recovering {A : Type} (m : M A) : M (A + option string) := λ w,
  match m w with
  | (Ok a, w') => (Ok (inl a), w')
  | (Panic r, w') => (Ok (inr r), w')
  | (OutOfFuel, w') => (OutOfFuel, w')
  end.

(** The deferred function of [Transact].  [r] is the value of
    [recover()], [err] the named result and [rollback] the flag, as they
    are when the function body is left. *)
Definition Transact_deferred (name : string) (t : option sql_Tx)
    (r : option string) (err : option error) (rollback : bool)
    : M (option error) :=
  let err :=
    match r with
    | Some _ =>
        Some (TransactionError name "panic" (Some (errorString debug_Stack)))
    | None => err
    end in
  if negb rollback then mret err
  else
    txerr ← tx_Rollback t;
    match txerr with
    | Some e =>
        mret (errors_Join
                [err; Some (TransactionError name "rollback" (Some e))])
    | None => mret err
    end.

(** The first statement of [Transact]: begin, through [c.try]. *)
Definition Transact_begin (fuel : nat) (ctx : Context_) : M (option error) :=
  set_tx None;;
  connection_try fuel ctx begin_op.

(** [Transact] from [rollback := true] on: the deferred function is
    installed, the unit of work runs, then the commit. *)
Definition Transact_begun (name : string)
    (op : option sql_Tx → U → exit * U) : M (option error) :=
  t ← get_tx;
  emit (EvWork t);;
  worked ← recovering (closure op t);
  match worked with
  | inr r => Transact_deferred name t r None true
  | inl (Some e) =>
      Transact_deferred name t None
        (Some (TransactionError name untagged (Some e))) true
  | inl None =>
      (* rollback = false *)
      committed ← recovering (tx_Commit t);
      match committed with
      | inr r => Transact_deferred name t r None false
      | inl (Some e) =>
          Transact_deferred name t None
            (Some (TransactionError name "commit" (Some e))) false
      | inl None => Transact_deferred name t None None false
      end
  end.

Definition Transact (fuel : nat) (ctx : Context_) (name : string)
    (op : option sql_Tx → U → exit * U) : M (option error) :=
  err ← Transact_begin fuel ctx;
  match err with
  | Some e => mret (Some (TransactionError name "begin" (Some e)))
  | None => Transact_begun name op
  end.

(** *** configuration.go and the open-function options of mocks.go

    A [ConfigurationFunc] receives the [*connection] and returns an error;
    here it returns the error and the connection as it leaves it. *)

Definition ConfigurationFunc : Type := connection → option error * connection.

Definition with_connectors (l : list Connector) (c : connection) : connection :=
  Connection (db c) (pingTimeout c) l (mru c) (configure c)
             (connect c) (open c) (trymethod c).

(** [if !slices.Contains(cnc.connectors, c) { append }] *)
Definition add_connector (cnc : connection) (c : Connector) : connection :=
  if bool_decide (c ∈ connectors cnc) then cnc
  else with_connectors (connectors cnc ++ [c]) cnc.

Definition WithConnector (c : Connector) : ConfigurationFunc := λ cnc,
  match db cnc with
  | Some _ => (Some ErrWithDbAndWithConnectorsIsInvalid, cnc)
  | None => (None, add_connector cnc c)
  end.

Definition WithConnectors (c : list Connector) : ConfigurationFunc := λ cnc,
  match db cnc with
  | Some _ => (Some ErrWithDbAndWithConnectorsIsInvalid, cnc)
  | None => (None, foldl add_connector cnc c)
  end.

Definition WithDbConfiguration (cfg : option (option sql_DB → option error))
    : ConfigurationFunc := λ cnc,
  match db cnc with
  | Some _ => (Some ErrWithDbAndWithConfigurationIsInvalid, cnc)
  | None =>
      (None, Connection (db cnc) (pingTimeout cnc) (connectors cnc) (mru cnc)
                        cfg (connect cnc) (open cnc) (trymethod cnc))
  end.

Definition WithDb (d : option sql_DB) : ConfigurationFunc := λ cnc,
  if decide (0 < length (connectors cnc)) then
    (Some ErrWithDbAndWithConnectorsIsInvalid, cnc)
  else
    match configure cnc with
    | Some _ => (Some ErrWithDbAndWithConfigurationIsInvalid, cnc)
    | None => (None, with_db d cnc)
    end.

Definition WithPingTimeout (t : Z) : ConfigurationFunc := λ cnc,
  if decide (t < 0)%Z then (Some ErrPingTimeoutIsInvalid, cnc)
  else
    (None, Connection (db cnc) t (connectors cnc) (mru cnc) (configure cnc)
                      (connect cnc) (open cnc) (trymethod cnc)).

Definition with_open (fn : string → string → option sql_DB * option error)
    (c : connection) : connection :=
  Connection (db c) (pingTimeout c) (connectors c) (mru c) (configure c)
             (connect c) fn (trymethod c).

Definition MockOpenFunc (fn : string → string → option sql_DB * option error)
    : ConfigurationFunc := λ cnc, (None, with_open fn cnc).

Definition MockOpenFuncResult (d : option sql_DB) (err : option error)
    : ConfigurationFunc := λ cnc, (None, with_open (λ _ _, (d, err)) cnc).

(** The calls that build a [ConfigurationFunc].  The type [connection] is
    not exported, so outside the package there is no other way to get
    one. *)
Inductive option_call :=
| call_WithConnector (c : Connector)
| call_WithConnectors (c : list Connector)
| call_WithDbConfiguration (cfg : option (option sql_DB → option error))
| call_WithDb (d : option sql_DB)
| call_WithPingTimeout (t : Z)
| call_MockOpenFunc (fn : string → string → option sql_DB * option error)
| call_MockOpenFuncResult (d : option sql_DB) (err : option error).

Definition configuration_func (o : option_call) : ConfigurationFunc :=
  match o with
  | call_WithConnector c => WithConnector c
  | call_WithConnectors c => WithConnectors c
  | call_WithDbConfiguration cfg => WithDbConfiguration cfg
  | call_WithDb d => WithDb d
  | call_WithPingTimeout t => WithPingTimeout t
  | call_MockOpenFunc fn => MockOpenFunc fn
  | call_MockOpenFuncResult d err => MockOpenFuncResult d err
  end.

(** [for _, cfg := range cfg { if err := cfg(c); err != nil { return } }] *)
Fixpoint configure_all (cfg : list ConfigurationFunc) (c : connection)
    : option error * connection :=
  match cfg with
  | [] => (None, c)
  | f :: cfg' =>
      match f c with
      | (Some err, c') => (Some err, c')
      | (None, c') => configure_all cfg' c'
      end
  end.

Definition with_methods (k : connect_kind) (t : trymethod_kind)
    (c : connection) : connection :=
  Connection (db c) (pingTimeout c) (connectors c) (mru c) (configure c)
             k (open c) t.

(** [c := &connection{mru: -1, open: sql.Open}] *)
Definition new_connection : connection :=
  Connection None 0 [] (-1) None connect_nil sql_Open trymethod_nil.

(** [NewConnection].  The connection it builds is the one of the world
    afterwards; the boolean tells whether it is returned to the caller. *)
Definition NewConnection (fuel : nat) (ctx : Context_)
    (cfg : list ConfigurationFunc) : M (bool * option error) :=
  match configure_all cfg new_connection with
  | (Some err, c) =>
      set_conn c;; mret (false, Some (ConfigurationError (Some err)))
  | (None, c) =>
      set_conn c;;
      match length (connectors c) with
      | 0 =>
          match db c with
          | None =>
              mret (false, Some (ConfigurationError
                                   (Some ErrNoConnectorsConfigured)))
          | Some _ =>
              set_conn (with_methods connect_connectdb noretry c);;
              mret (true, None)
          end
      | S n =>
          set_conn (with_methods connect_connectany
                      (match n with 0 => noretry | _ => retry end) c);;
          err ← connection_connect fuel ctx;
          match err with
          | Some e => mret (false, Some e)
          | None => mret (true, None)
          end
      end
  end.

(** *** Vocabulary of the properties

    The definitions from here to the end of the section are not code of
    the package: they say what the properties are about (what one attempt
    gives, the order of the candidates as the specification states it, what
    is read off the log), and the theorems relate them to the code above. *)

(** What one open-and-ping of the connector at index [ix] gives. *)
Inductive attempt :=
| Connected (d : sql_DB)        (* opened, and the ping came back *)
| Refused (e : error)           (* open or ping failed: the error recorded *)
| Broken                        (* open returned no handle and no error *)
| OutOfRange.                   (* no connector at this index *)

Definition attempt_at (c : connection) (ctx : Context_) (ix : Z) : attempt :=
  if decide (0 ≤ ix)%Z then
    match connectors c !! Z.to_nat ix with
    | Some cnc =>
        match open c (Driver cnc) (ConnectionString cnc) with
        | (_, Some err) => Refused (ConnectionError cnc "open db" (Some err))
        | (None, None) => Broken
        | (Some d, None) =>
            match DB_PingContext ctx d with
            | Some err => Refused (ConnectionError cnc "ping" (Some err))
            | None => Connected d
            end
        end
    | None => OutOfRange
    end
  else OutOfRange.

(** The calls one attempt makes. *)
Definition attempt_events (c : connection) (ctx : Context_) (ix : Z)
    : list event :=
  match connectors c !! Z.to_nat ix with
  | Some cnc =>
      EvOpen ix (Driver cnc) (ConnectionString cnc) ::
      match open c (Driver cnc) (ConnectionString cnc) with
      | (Some d, None) => [EvPing ctx d]
      | _ => []
      end
  | None => []
  end.

Definition refused (c : connection) (ctx : Context_) (ix : Z) : Prop :=
  ∃ e, attempt_at c ctx ix = Refused e.

(** The order of the candidates as the specification states it, for a
    pass that starts from [mru = m] over [n] connectors: (m+1)%n, (m+2)%n,
    ..., (m+n)%n, with the mathematical remainder. *)
Definition rotation (m : Z) (n : nat) : list Z :=
  (λ i : Z, (m + i) `mod` Z.of_nat n)%Z <$> seqZ 1 (Z.of_nat n).

(** The candidates of [l] a pass gets to: all up to and including the
    first that is not refused. *)
Fixpoint probed (c : connection) (ctx : Context_) (l : list Z) : list Z :=
  match l with
  | [] => []
  | ix :: l' =>
      ix :: match attempt_at c ctx ix with
            | Refused _ => probed c ctx l'
            | _ => []
            end
  end.

(** The errors of the refused candidates at the front of [l]. *)
Fixpoint refusals (c : connection) (ctx : Context_) (l : list Z)
    : list error :=
  match l with
  | [] => []
  | ix :: l' =>
      match attempt_at c ctx ix with
      | Refused e => e :: refusals c ctx l'
      | _ => []
      end
  end.

(** The first candidate of [l] that is not refused, with what it gave. *)
Fixpoint settled (c : connection) (ctx : Context_) (l : list Z)
    : option (Z * attempt) :=
  match l with
  | [] => None
  | ix :: l' =>
      match attempt_at c ctx ix with
      | Refused _ => settled c ctx l'
      | a => Some (ix, a)
      end
  end.

(** The indices the loop of [connectany] computes in [n] iterations
    from [ix], over [N] connectors. *)
Fixpoint candidates_from (N ix : Z) (n : nat) : list Z :=
  match n with
  | O => []
  | S n' =>
      let ix' := ((ix + 1) `mod` N)%Z in
      ix' :: candidates_from N ix' n'
  end.

(** Reading the log. *)
Definition opened (evs : list event) : list Z :=
  omap (λ e, match e with EvOpen ix _ _ => Some ix | _ => None end) evs.
Definition rollbacks (evs : list event) : nat :=
  length (omap (λ e, match e with EvRollback t => Some t | _ => None end) evs).
Definition commits (evs : list event) : nat :=
  length (omap (λ e, match e with EvCommit t => Some t | _ => None end) evs).
Definition invocations (evs : list event) : nat :=
  length (omap (λ e, match e with EvOp d => Some d | _ => None end) evs).
Definition rotations (evs : list event) : nat :=
  length (omap (λ e, match e with EvConnectAny => Some () | _ => None end) evs).

(** The calls that are not made on a transaction. *)
Definition connection_event (e : event) : Prop :=
  match e with
  | EvWork _ | EvCommit _ | EvRollback _ => False
  | _ => True
  end.

(** A computation that only adds calls satisfying [P] to the log,
    whatever way it ends. *)
Definition emits {A : Type} (P : event → Prop) (m : M A) : Prop :=
  ∀ w, ∃ evs, log (m w).2 = log w ++ evs ∧ Forall P evs.

(** The calls made between the worlds [w] and [w']. *)
Definition since (w w' : world) : list event :=
  drop (length (log w)) (log w').

Definition log_more (evs : list event) (w : world) : world :=
  World (conn w) (tx w) (heap w) (log w ++ evs).
Definition with_conn (c : connection) (w : world) : world :=
  World c (tx w) (heap w) (log w).
Definition with_heap (h : U) (w : world) : world :=
  World (conn w) (tx w) h (log w).

(** [c.db = db; c.mru = ix] *)
Definition install (d : sql_DB) (ix : Z) (c : connection) : connection :=
  with_mru ix (with_db (Some d) c).

(** The invariant of [mru], and that the slice length is an [int]. *)
Definition mru_valid (c : connection) : Prop :=
  mru c = (-1)%Z ∨ (0 ≤ mru c < Z.of_nat (length (connectors c)))%Z.
Definition fits_int (c : connection) : Prop :=
  (Z.of_nat (length (connectors c)) ≤ int_max)%Z.

(** Everything of a connection but [db] and [mru]. *)
Definition same_setup (c c' : connection) : Prop :=
  connectors c' = connectors c ∧ open c' = open c ∧
  configure c' = configure c ∧ connect c' = connect c ∧
  trymethod c' = trymethod c ∧ pingTimeout c' = pingTimeout c.

(** [c'] is [c] up to the handle, and up to [mru] if the connector at
    the new [mru] has opened and answered the ping. *)
Definition mru_step (ctx : Context_) (c c' : connection) : Prop :=
  same_setup c c' ∧
  (mru c' = mru c ∨ ∃ d, attempt_at c ctx (mru c') = Connected d).

(** A computation that changes the connection by [mru_step] only, whatever
    way it ends. *)
Definition respects_mru {A : Type} (ctx : Context_) (m : M A) : Prop :=
  ∀ w, fits_int (conn w) → mru_valid (conn w) →
       mru_step ctx (conn w) (conn (m w).2).

(** The methods of a connection. [Exec], [Prepare], [Query] and
    [QueryRow] are [c.try] of a closure of theirs. *)
Inductive method :=
| method_connectany
| method_connectdb
| method_connect
| method_reconnect
| method_close (force : bool)
| method_Close
| method_Ping
| method_try (op : option sql_DB → U → exit * U)
| method_noretry_try (op : option sql_DB → U → exit * U)
| method_retry_try (op : option sql_DB → U → exit * U)
| method_Transact (name : string) (op : option sql_Tx → U → exit * U).

Definition invoke (fuel : nat) (ctx : Context_) (m : method)
    : M (option error) :=
  match m with
  | method_connectany => connectany ctx
  | method_connectdb => connectdb fuel ctx
  | method_connect => connection_connect fuel ctx
  | method_reconnect => reconnect fuel ctx
  | method_close force => close force
  | method_Close => Close
  | method_Ping => Ping fuel ctx
  | method_try op => connection_try fuel ctx (closure op)
  | method_noretry_try op => noretry_try (closure op)
  | method_retry_try op => retry_try fuel ctx (closure op)
  | method_Transact name op => Transact fuel ctx name op
  end.

(** First-added order, as the specification has it: keep the first
    occurrence of every value of [l] that is not in [seen]. *)
Fixpoint dedup_seen (seen l : list Connector) : list Connector :=
  match l with
  | [] => []
  | x :: l' =>
      if decide (x ∈ seen) then dedup_seen seen l'
      else x :: dedup_seen (x :: seen) l'
  end.
Definition dedup_first (l : list Connector) : list Connector :=
  dedup_seen [] l.

(** The connectors a configuration call asks to add. *)
Definition added (o : option_call) : list Connector :=
  match o with
  | call_WithConnector c => [c]
  | call_WithConnectors c => c
  | _ => []
  end.

(** The calls of [WithConnector] and [WithConnectors]. *)
Definition adds_connectors (o : option_call) : Prop :=
  match o with
  | call_WithConnector _ | call_WithConnectors _ => True
  | _ => False
  end.

(** The calls that establish a connection. *)
Definition opening_event (e : event) : Prop :=
  match e with
  | EvConnectAny | EvOpen _ _ _ | EvPing _ _ | EvConfigure _ => True
  | _ => False
  end.

(** What the configuration options keep apart: a handle that was handed
    in, and connectors or a configuration hook. *)
Definition exclusive (c : connection) : Prop :=
  db c = None ∨ (connectors c = [] ∧ configure c = None).

(** [time.Duration] of the ping a connection makes. *)
Definition ping_timeout (c : connection) : Z :=
  if decide (pingTimeout c = 0%Z) then PingTimeout else pingTimeout c.

End model.

(** ** context.go

    A [context.Context] as far as [Value] goes: the chain of links from
    the newest to the root.  Deadlines and cancellation add links that hold
    no value. *)

(** [type key int].  The type is not exported: a key of another package
    is never equal to [transactionKey]. *)
Inductive context_key :=
| transactionKey
| foreign_key (n : nat).

#[global] Instance context_key_eq_dec : EqDecision context_key.
Proof. solve_decision. Defined.

(** [type transaction struct{ *sql.Tx }]: what a [Transaction] that is not
    nil points at. *)
Record transaction := { transaction_Tx : option sql_Tx }.

(** The values stored under a key: a [Transaction], or something else. *)
Inductive context_value :=
| transaction_value (tx : transaction)
| foreign_value (n : nat).

Inductive ValueContext :=
| emptyCtx                                         (* context.Background() *)
| valueCtx (parent : ValueContext) (k : context_key)
           (v : option context_value)              (* context.WithValue *)
| timerCtx (parent : ValueContext) (t : Z).        (* context.WithTimeout *)

(** [ctx.Value(k)] *)
Fixpoint Context_Value (ctx : ValueContext) (k : context_key)
    : option context_value :=
  match ctx with
  | emptyCtx => None
  | valueCtx parent k' v =>
      if decide (k = k') then v else Context_Value parent k
  | timerCtx parent _ => Context_Value parent k
  end.

Definition ContextWithTransaction (ctx : ValueContext)
    (tx : option transaction) : ValueContext :=
  valueCtx ctx transactionKey (transaction_value <$> tx).

Definition interface_conversion : string :=
  "interface conversion: interface {} is not database.Transaction".

(** [if tx := ctx.Value(transactionKey); tx != nil { return tx.(Transaction) }] *)
Definition TransactionFromContext (ctx : ValueContext)
    : result (option transaction) :=
  match Context_Value ctx transactionKey with
  | Some (transaction_value tx) => Ok (Some tx)
  | Some (foreign_value _) => Panic (Some interface_conversion)
  | None => Ok None
  end.

(** The calls that derive a context outside the package: values under
    keys of other packages, deadlines, and [ContextWithTransaction]. *)
Inductive context_call :=
| call_WithValue (n : nat) (v : option context_value)
| call_WithTimeout (t : Z)
| call_ContextWithTransaction (tx : option transaction).

Definition derive (ctx : ValueContext) (o : context_call) : ValueContext :=
  match o with
  | call_WithValue n v => valueCtx ctx (foreign_key n) v
  | call_WithTimeout t => timerCtx ctx t
  | call_ContextWithTransaction tx => ContextWithTransaction ctx tx
  end.

(** The transactions handed to [ContextWithTransaction], in order. *)
Definition attached (calls : list context_call)
    : list (option transaction) :=
  omap (λ o, match o with
             | call_ContextWithTransaction tx => Some tx
             | _ => None
             end) calls.

(** ** connection.go: [Exec], [Prepare], [Query] and [QueryRow]

    Each is [c.try] of a closure that calls the driver on the handle it
    is given and assigns the named result of the method, which is the one
    variable the closure captures. *)

Section queries.
Context `{Backend} {R : Type}.

Definition get_heap : M (U:=option R) (option R) := λ w, (Ok (heap w), w).
Definition set_heap (h : option R) : M (U:=option R) unit := λ w,
  (Ok (), World (conn w) (tx w) h (log w)).

(** [result, err = db.ExecContext(ctx, cmd, args...); return err], where
    [run] is the call of the driver; on a nil handle the call panics and
    assigns nothing. *)
Definition query_op (run : sql_DB → option R * option error)
    (d : option sql_DB) (result : option R) : exit * option R :=
  match d with
  | Some d => (Returns (run d).2, (run d).1)
  | None => (Panics (Some nil_dereference), result)
  end.

Definition Exec (fuel : nat) (ctx : Context_)
    (ExecContext : sql_DB → option R * option error)
    : M (option R * option error) :=
  set_heap None;;
  err ← connection_try fuel ctx (closure (query_op ExecContext));
  result ← get_heap;
  mret (result, err).

Definition Prepare (fuel : nat) (ctx : Context_)
    (PrepareContext : sql_DB → option R * option error)
    : M (option R * option error) :=
  set_heap None;;
  err ← connection_try fuel ctx (closure (query_op PrepareContext));
  result ← get_heap;
  mret (result, err).

Definition Query (fuel : nat) (ctx : Context_)
    (QueryContext : sql_DB → option R * option error)
    : M (option R * option error) :=
  set_heap None;;
  err ← connection_try fuel ctx (closure (query_op QueryContext));
  rows ← get_heap;
  mret (rows, err).

(** [row = db.QueryRowContext(ctx, qry, args...); return row.Err()] *)
Definition QueryRow (fuel : nat) (ctx : Context_)
    (QueryRowContext : sql_DB → R) (Row_Err : R → option error)
    : M (option R * option error) :=
  set_heap None;;
  err ← connection_try fuel ctx
          (closure (query_op (λ d, (Some (QueryRowContext d),
                                    Row_Err (QueryRowContext d)))));
  row ← get_heap;
  mret (row, err).

End queries.

(** ** mocks.go: the connectors of the package *)

Inductive MockConnectors :=
| MockConnector (s : string)
| SqlmockConnector (s : string).

#[global] Instance MockConnectors_eq_dec : EqDecision MockConnectors.
Proof. solve_decision. Defined.

Definition MockConnectorDriver : string := "mock".
Definition SqlmockConnectorDriver : string := "sqlmock".

Definition mock_connectors : ConnectorType := {|
  Connector := MockConnectors;
  Driver := λ m,
    match m with
    | MockConnector _ => MockConnectorDriver
    | SqlmockConnector _ => SqlmockConnectorDriver
    end;
  ConnectionString := λ m,
    match m with
    | MockConnector s => s
    | SqlmockConnector s => s
    end;
|}.

(** ** A small backend to run the model on

    Two servers.  Opening "a" gives handle 1, opening "b" is refused.
    Handle 0 is a connection that went bad; handle 1 answers pings.
    Transactions begin on any handle; transaction 7 cannot be rolled back
    or committed. *)

Module Sample.

#[local] Existing Instance mock_connectors.

Definition opener (driver cs : string) : option sql_DB * option error :=
  if decide (cs = "a") then (Some 1, None)
  else (None, Some (errorString "open error")).

Definition backend : Backend := {|
  sql_Open := opener;
  DB_PingContext := λ _ d, if decide (d = 1) then None else Some ErrBadConn;
  DB_Close := λ _, None;
  DB_BeginTx := λ d, inl (d + 6);
  Tx_Commit := λ t,
    if decide (t = 7) then Some (errorString "commit error") else None;
  Tx_Rollback := λ t,
    if decide (t = 7) then Some (errorString "rollback error") else None;
  debug_Stack := "goroutine 1 [running]";
  PingTimeout := 500000000;
|}.

#[local] Existing Instance backend.

(** Connected through "a" (index 0); the handle in use, 0, has gone bad.
    The other connector, "b", is down. *)
Definition two_servers : connection :=
  Connection (Some 0) 0 [MockConnector "a"; MockConnector "b"] 0 None
             connect_connectany opener retry.

Definition world0 : world (U:=nat) := World two_servers None 0 [].

(** The same with [mru] at "b": the pass starts at "a". *)
Definition world1 : world (U:=nat) := World (with_mru 1 two_servers) None 0 [].

(** Never connected, and no connector that answers. *)
Definition all_down : connection :=
  Connection None 0 [MockConnector "b"; MockConnector "c"] (-1) None
             connect_connectany opener retry.

Definition world_down : world (U:=nat) := World all_down None 0 [].

(** The caller counts the invocations of its closures. *)

(** Fails with a bad connection the first time, succeeds afterwards. *)
Definition flaky (d : option sql_DB) (n : nat) : exit * nat :=
  (Returns (if decide (n = 0) then Some ErrBadConn else None), S n).

Definition sql_error : error := errorString "sql error".
Definition malformed (d : option sql_DB) (n : nat) : exit * nat :=
  (Returns (Some sql_error), S n).

Definition operation_error : error := errorString "operation error".
Definition work_completes (t : option sql_Tx) (n : nat) : exit * nat :=
  (Returns None, S n).
Definition work_fails (t : option sql_Tx) (n : nat) : exit * nat :=
  (Returns (Some operation_error), S n).
Definition work_panics (t : option sql_Tx) (n : nat) : exit * nat :=
  (Panics (Some "at the disco!"), S n).

(** [panic(nil)], where [recover()] returns nil: before Go 1.21, and
    since then under [GODEBUG=panicnil=1]. *)
Definition work_panics_nil (t : option sql_Tx) (n : nat) : exit * nat :=
  (Panics None, S n).

(** The world once [Transact] has begun a transaction from [world0]. *)
Definition world_begun : world (U:=nat) :=
  World two_servers (Some 6) 0 [EvOp (Some 0); EvBeginTx 0].

Definition options : list option_call :=
  [call_WithConnector (MockConnector "b");
   call_WithConnectors [MockConnector "b"; MockConnector "a"; MockConnector "a"];
   call_WithPingTimeout 250].

(** Calls that name connectors only, some of them more than once. *)
Definition connector_options : list option_call :=
  [call_WithConnector (MockConnector "b");
   call_WithConnectors [MockConnector "b"; MockConnector "a"; MockConnector "a"];
   call_WithConnector (MockConnector "a");
   call_WithConnectors [MockConnector "a"; MockConnector "b"]].

(** Two connectors that both reach server "a". *)
Definition both_up : connection :=
  Connection (Some 0) 0 [MockConnector "a"; SqlmockConnector "a"] 0 None
             connect_connectany opener retry.

Definition world_up : world (U:=nat) := World both_up None 0 [].

(** Fails with a bad connection every time. *)
Definition always_bad (d : option sql_DB) (n : nat) : exit * nat :=
  (Returns (Some ErrBadConn), S n).

(** What [NewConnection] leaves for [options]: "b" refused, connected
    through "a". *)
Definition world_connected : world (U:=nat) :=
  World (Connection (Some 1) 250 [MockConnector "b"; MockConnector "a"] 1
                    None connect_connectany opener retry)
        None 0
        [EvConnectAny; EvOpen 0 "mock" "b"; EvOpen 1 "mock" "a";
         EvPing Background 1].

(** What it leaves for the one connector "a". *)
Definition world_single : world (U:=nat) :=
  World (Connection (Some 1) 0 [MockConnector "a"] 0 None
                    connect_connectany opener noretry)
        None 0
        [EvConnectAny; EvOpen 0 "mock" "a"; EvPing Background 1].

(** Connected through "a", with a handle that answers. *)
Definition world_live : world (U:=nat) :=
  World (with_db (Some 1) two_servers) None 0 [].

(** The same servers when no transaction can be begun. *)
Definition begin_error : error := errorString "begin error".

Definition no_transactions : Backend := {|
  sql_Open := opener;
  DB_PingContext := λ _ d, if decide (d = 1) then None else Some ErrBadConn;
  DB_Close := λ _, None;
  DB_BeginTx := λ _, inr begin_error;
  Tx_Commit := λ _, None;
  Tx_Rollback := λ _, None;
  debug_Stack := "goroutine 1 [running]";
  PingTimeout := 500000000;
|}.

(** A statement that is executed on the handle: handle 0 has gone bad,
    the others report the handle they ran on. *)
Definition statement (d : sql_DB) : option nat * option error :=
  if decide (d = 0) then (None, Some ErrBadConn) else (Some d, None).

Definition world_query : world (U:=option nat) :=
  World (with_mru 1 two_servers) None (Some 7) [].

End Sample.

(** * Properties *)

Section proofs.
Context `{Backend} {U : Type}.
Implicit Types (w : world (U:=U)) (c : connection).

Lemma wrap_int_id z : (int_min ≤ z ≤ int_max)%Z → wrap_int z = z.
Proof.
  unfold wrap_int, int_min, int_max. intros Hz.
  rewrite Z.mod_small by lia. lia.
Qed.

Lemma next_index ix (N : nat) :
  (-1 ≤ ix < Z.of_nat N)%Z → (Z.of_nat N ≤ int_max)%Z →
  int_rem (int_add ix 1) (Z.of_nat N) = ((ix + 1) `mod` Z.of_nat N)%Z.
Proof.
  intros Hix HN. unfold int_rem, int_add.
  rewrite wrap_int_id by (unfold int_min, int_max in *; simpl in *; lia).
  destruct N as [|N]; [replace ix with (-1)%Z by lia; done|].
  apply Z.rem_mod_nonneg; lia.
Qed.

Ltac run :=
  unfold mbind, M_bind, mret, M_ret, emit, get_conn, set_db, set_mru,
    set_conn, panic;
  simpl.

Lemma connectany_loop_step ctx n ix errs w :
  let c := conn w in
  let N := Z.of_nat (length (connectors c)) in
  (-1 ≤ ix < N)%Z → (N ≤ int_max)%Z →
  connectany_loop ctx (S n) ix errs w =
    let ix' := ((ix + 1) `mod` N)%Z in
    let w1 := log_more (attempt_events c ctx ix') w in
    match attempt_at c ctx ix' with
    | Refused e => connectany_loop ctx n ix' (errs ++ [Some e]) w1
    | Connected d => (Ok errs, with_conn (install d ix' c) w1)
    | Broken => (Panic (Some nil_dereference), w1)
    | OutOfRange => (Panic (Some index_out_of_range), w)
    end.
Proof.
  intros c N Hix HN. simpl.
  unfold mbind, M_bind at 1. unfold get_conn at 1. 
  rewrite next_index by done. fold c. fold N.
  set (ix' := ((ix + 1) `mod` N)%Z).
  unfold connectors_at, attempt_at, attempt_events.
  run. fold c.
  destruct (decide (0 ≤ ix')%Z) as [Hpos|Hneg]; [|done].
  destruct (connectors c !! Z.to_nat ix') as [cnc|] eqn:Hcnc; [|done].
  simpl.
  destruct (open c (Driver cnc) (ConnectionString cnc)) as [[d|] [err|]] eqn:Hopen;
    simpl; try done.
  unfold log_more, with_conn, install; simpl.
  rewrite <-app_assoc; simpl.
  by destruct (DB_PingContext ctx d).
Qed.

Lemma candidates_from_closed N ix n :
  candidates_from N ix n = (λ i : Z, (ix + i) `mod` N)%Z <$> seqZ 1 (Z.of_nat n).
Proof.
  revert ix. induction n as [|n IH]; intros ix; [done|].
  rewrite seqZ_cons by lia. simpl. f_equal.
  rewrite IH. replace (Z.pred (Z.of_nat (S n))) with (Z.of_nat n) by lia.
  change (Z.succ 1) with (1 + 1)%Z.
  rewrite <-(fmap_add_seqZ 1 1), <-list_fmap_compose.
  apply list_fmap_ext. intros _ i _. simpl.
  rewrite Zplus_mod_idemp_l. f_equal. lia.
Qed.

Lemma rotation_candidates m (n : nat) :
  rotation m n = candidates_from (Z.of_nat n) m n.
Proof. by rewrite candidates_from_closed. Qed.

Lemma candidates_from_range N ix n :
  (0 < N)%Z → Forall (λ j, 0 ≤ j < N)%Z (candidates_from N ix n).
Proof.
  intros HN. revert ix. induction n as [|n IH]; intros ix; simpl; constructor.
  - apply Z.mod_pos_bound; lia.
  - apply IH.
Qed.

Lemma attempt_in_range c ctx ix :
  (0 ≤ ix < Z.of_nat (length (connectors c)))%Z →
  attempt_at c ctx ix ≠ OutOfRange.
Proof.
  intros Hix. unfold attempt_at.
  destruct (decide (0 ≤ ix)%Z); [|lia].
  destruct (connectors c !! Z.to_nat ix) as [cnc|] eqn:Hcnc.
  - destruct (open c _ _) as [[d|] [err|]]; try done.
    by destruct (DB_PingContext ctx d).
  - apply lookup_ge_None in Hcnc. lia.
Qed.

Lemma log_more_log_more (evs evs' : list event) w :
  log_more evs' (log_more evs w) = log_more (evs ++ evs') w.
Proof. unfold log_more; simpl. by rewrite app_assoc. Qed.

Lemma log_more_nil w : log_more [] w = w.
Proof. destruct w. unfold log_more; simpl. by rewrite app_nil_r. Qed.

(** The loop of [connectany] stops at the first candidate that is not
    refused; up to there it records the refusals in order. *)
Lemma connectany_loop_spec ctx n ix errs w :
  let c := conn w in
  let N := Z.of_nat (length (connectors c)) in
  (0 < N)%Z → (-1 ≤ ix < N)%Z → (N ≤ int_max)%Z →
  let l := candidates_from N ix n in
  let w1 := log_more (flat_map (attempt_events c ctx) (probed c ctx l)) w in
  let errs1 := errs ++ (Some <$> refusals c ctx l) in
  connectany_loop ctx n ix errs w =
    match settled c ctx l with
    | None => (Ok errs1, w1)
    | Some (ix', Connected d) => (Ok errs1, with_conn (install d ix' c) w1)
    | Some _ => (Panic (Some nil_dereference), w1)
    end.
Proof.
  intros c N HN0 Hix HN. revert ix errs w c N HN0 Hix HN.
  induction n as [|n IH]; intros ix errs w c N HN0 Hix HN l w1 errs1.
  - subst l w1 errs1. simpl. by rewrite app_nil_r, log_more_nil.
  - rewrite connectany_loop_step by done. fold c N.
    subst l w1 errs1. cbn [candidates_from probed refusals settled flat_map].
    set (ix' := ((ix + 1) `mod` N)%Z).
    assert (0 ≤ ix' < N)%Z as Hix' by (apply Z.mod_pos_bound; lia).
    pose proof (attempt_in_range c ctx ix' Hix') as Hrange.
    destruct (attempt_at c ctx ix') as [d|e| |] eqn:Hat; try done.
    + simpl. by rewrite !app_nil_r.
    + rewrite IH; simpl; fold c N; try lia.
      rewrite log_more_log_more, <-app_assoc. done.
    + simpl. by rewrite !app_nil_r.
Qed.

Lemma omap_id_Some {A} (l : list A) : omap id (Some <$> l) = l.
Proof. induction l as [|x l IH]; [done|]. cbn. by f_equal. Qed.

Lemma errors_Join_replicate n (l : list error) :
  errors_Join (replicate n None ++ (Some <$> l)) = errors_Join (Some <$> l).
Proof.
  unfold errors_Join. rewrite omap_app.
  replace (omap id (replicate n (@None error))) with (@nil error); [done|].
  induction n; simpl; done.
Qed.

Lemma errors_Join_Some (l : list error) :
  l ≠ [] → errors_Join (Some <$> l) = Some (joinError l).
Proof. intros Hl. unfold errors_Join. rewrite omap_id_Some. by destruct l. Qed.

(** What [connectany] does, for a connection whose [mru] is in range. *)
Lemma connectany_spec ctx w :
  let c := conn w in
  let N := length (connectors c) in
  0 < N → fits_int c → (-1 ≤ mru c < Z.of_nat N)%Z →
  let l := rotation (mru c) N in
  let w1 := log_more (EvConnectAny ::
                      flat_map (attempt_events c ctx) (probed c ctx l)) w in
  let failed := Some (ConnectionFailedError
                        (errors_Join (Some <$> refusals c ctx l))) in
  connectany ctx w =
    match settled c ctx l with
    | None => (Ok failed, w1)
    | Some (ix, Connected d) =>
        let w2 := with_conn (install d ix c) w1 in
        if decide (ix = mru c) then (Ok failed, w2)
        else
          match configure c with
          | Some cfg =>
              (Ok (option_map (λ e, ConfigurationError (Some e)) (cfg (Some d))),
               log_more [EvConfigure (Some d)] w2)
          | None => (Ok None, w2)
          end
    | Some _ => (Panic (Some nil_dereference), w1)
    end.
Proof.
  intros c N HN Hfits Hmru l w1 failed.
  unfold connectany.
  unfold mbind at 1, M_bind at 1, emit at 1.
  unfold mbind at 1, M_bind at 1, get_conn at 1. cbn [conn].
  unfold mbind at 1, M_bind at 1.
  rewrite connectany_loop_spec; cbn [conn]; fold c N; try (unfold fits_int in *; lia).
  rewrite <-rotation_candidates. fold l.
  subst w1 failed.
  unfold log_more, with_conn, install. cbn [conn tx heap log].
  rewrite <-!app_assoc. cbn [app].
  destruct (settled c ctx l) as [[ix [d|e| |]]|]; try done.
  - unfold mbind, M_bind, get_conn, mret, M_ret, emit. cbn.
    rewrite errors_Join_replicate.
    destruct (decide (ix = mru c)); [done|].
    destruct (configure c) as [cfg|]; [|done].
    cbn [conn tx heap log]. rewrite <-app_assoc.
    by destruct (cfg (Some d)).
  - unfold mbind, M_bind, get_conn, mret, M_ret. cbn.
    rewrite errors_Join_replicate.
    destruct (decide (mru c = mru c)); done.
Qed.

(** *** The candidates of a pass *)

Lemma rotation_unfold m (n : nat) :
  (-1 ≤ m < Z.of_nat n)%Z →
  rotation m n = seqZ (m + 1) (Z.of_nat n - 1 - m) ++ seqZ 0 (m + 1).
Proof.
  intros Hm. unfold rotation.
  replace (seqZ 1 (Z.of_nat n))
    with (seqZ 1 ((Z.of_nat n - 1 - m) + (m + 1))) by (f_equal; lia).
  rewrite seqZ_app, fmap_app by lia. f_equal.
  - rewrite <-(fmap_add_seqZ m 1).
    apply Forall_fmap_ext, Forall_seqZ. intros i Hi. simpl.
    apply Z.mod_small. lia.
  - replace (seqZ 0 (m + 1))
      with (seqZ (m - Z.of_nat n + (1 + (Z.of_nat n - 1 - m))) (m + 1))
      by (f_equal; lia).
    rewrite <-(fmap_add_seqZ (m - Z.of_nat n)).
    apply Forall_fmap_ext, Forall_seqZ. intros i Hi. simpl.
    rewrite <-(Z_mod_plus_full _ (-1)).
    replace (m + i + -1 * Z.of_nat n)%Z with (m - Z.of_nat n + i)%Z by lia.
    apply Z.mod_small. lia.
Qed.

Lemma rotation_never_connected (n : nat) :
  rotation (-1) n = seqZ 0 (Z.of_nat n).
Proof.
  rewrite rotation_unfold by lia. simpl.
  rewrite app_nil_r. f_equal. lia.
Qed.

Lemma rotation_length m n : length (rotation m n) = n.
Proof. unfold rotation. rewrite length_fmap, length_seqZ. lia. Qed.

Lemma rotation_NoDup m (n : nat) :
  (-1 ≤ m < Z.of_nat n)%Z → NoDup (rotation m n).
Proof.
  intros Hm. rewrite rotation_unfold by done.
  apply NoDup_app. split_and!; try apply NoDup_seqZ.
  intros x. rewrite !elem_of_seqZ. lia.
Qed.

Lemma rotation_range m (n : nat) :
  0 < n → Forall (λ ix, 0 ≤ ix < Z.of_nat n)%Z (rotation m n).
Proof.
  intros Hn. rewrite rotation_candidates. apply candidates_from_range. lia.
Qed.

Lemma rotation_last m (n : nat) :
  (0 ≤ m < Z.of_nat n)%Z → last (rotation m n) = Some m.
Proof.
  intros Hm. rewrite rotation_unfold by lia.
  replace (m + 1)%Z with (Z.of_nat (S (Z.to_nat m))) at 2 by lia.
  rewrite seqZ_S, app_assoc, last_snoc. f_equal. lia.
Qed.

(** *** What a pass gets to *)

Lemma probed_prefix c ctx l : probed c ctx l `prefix_of` l.
Proof.
  induction l as [|ix l IH]; simpl; [done|].
  apply prefix_cons. destruct (attempt_at c ctx ix); auto using prefix_nil.
Qed.

Lemma all_refused c ctx l :
  Forall (refused c ctx) l →
  settled c ctx l = None ∧ probed c ctx l = l ∧
  Forall2 (λ ix e, attempt_at c ctx ix = Refused e) l (refusals c ctx l).
Proof.
  induction 1 as [|ix l [e He] _ (IH1 & IH2 & IH3)]; simpl; [done|].
  rewrite He. split_and!; [done|by f_equal|by constructor].
Qed.

Lemma first_settled c ctx l1 ix l2 a :
  Forall (refused c ctx) l1 →
  attempt_at c ctx ix = a → ¬ refused c ctx ix →
  settled c ctx (l1 ++ ix :: l2) = Some (ix, a) ∧
  probed c ctx (l1 ++ ix :: l2) = l1 ++ [ix] ∧
  refusals c ctx (l1 ++ ix :: l2) = refusals c ctx l1.
Proof.
  intros Hl1 Ha Hnot.
  induction Hl1 as [|ix1 l1 [e He] _ (IH1 & IH2 & IH3)]; simpl.
  - rewrite Ha. destruct a; try done. destruct Hnot. by eexists.
  - rewrite He. split_and!; [done|by f_equal|by f_equal].
Qed.

Lemma settled_inv c ctx l ix a :
  settled c ctx l = Some (ix, a) →
  ∃ l1 l2, l = l1 ++ ix :: l2 ∧ Forall (refused c ctx) l1 ∧
           attempt_at c ctx ix = a ∧ ¬ refused c ctx ix.
Proof.
  induction l as [|ix1 l IH]; simpl; [done|].
  destruct (attempt_at c ctx ix1) as [d|e| |] eqn:Hat.
  2:{ intros (l1 & l2 & -> & Hl1 & Ha & Hnot)%IH.
      exists (ix1 :: l1), l2. split_and!; try done.
      constructor; [by eexists|done]. }
  all: intros [= <- <-]; exists [], l; split_and!; try done;
    intros [e He]; congruence.
Qed.

Lemma refused_cause c ctx ix e :
  attempt_at c ctx ix = Refused e →
  ∃ cnc op err, connectors c !! Z.to_nat ix = Some cnc ∧
                e = ConnectionError cnc op (Some err).
Proof.
  unfold attempt_at. destruct (decide (0 ≤ ix)%Z); [|done].
  destruct (connectors c !! Z.to_nat ix) as [cnc|] eqn:Hcnc; [|done].
  destruct (open c _ _) as [[d|] [err|]]; try done.
  - intros [= <-]. by eexists _, _, _.
  - destruct (DB_PingContext ctx d); [|done]. intros [= <-]. by eexists _, _, _.
  - intros [= <-]. by eexists _, _, _.
Qed.

Lemma connected_inv c ctx ix d :
  attempt_at c ctx ix = Connected d →
  ∃ cnc, (0 ≤ ix)%Z ∧ connectors c !! Z.to_nat ix = Some cnc ∧
         open c (Driver cnc) (ConnectionString cnc) = (Some d, None) ∧
         DB_PingContext ctx d = None.
Proof.
  unfold attempt_at. destruct (decide (0 ≤ ix)%Z); [|done].
  destruct (connectors c !! Z.to_nat ix) as [cnc|] eqn:Hcnc; [|done].
  destruct (open c _ _) as [[d'|] [err|]] eqn:Hopen; try done.
  destruct (DB_PingContext ctx d') eqn:Hping; [done|]. intros [= <-].
  exists cnc. by split_and!.
Qed.

(** [refused] and [Connected], in terms of what [open] and the ping
    answer. *)
Lemma refused_spec c ctx ix :
  refused c ctx ix ↔
  ∃ cnc, (0 ≤ ix)%Z ∧ connectors c !! Z.to_nat ix = Some cnc ∧
         let r := open c (Driver cnc) (ConnectionString cnc) in
         (is_Some r.2 ∨
          ∃ d, r = (Some d, None) ∧ is_Some (DB_PingContext ctx d)).
Proof.
  unfold refused, attempt_at. split.
  - intros [e He]. destruct (decide (0 ≤ ix)%Z); [|done].
    destruct (connectors c !! Z.to_nat ix) as [cnc|]; [|done].
    exists cnc. split_and!; try done. cbn zeta.
    destruct (open c _ _) as [[d|] [err|]]; cbn; try done; eauto.
    destruct (DB_PingContext ctx d) eqn:Hping; [|done].
    right. exists d. by rewrite Hping.
  - intros (cnc & Hpos & -> & Hr). cbn zeta in Hr.
    destruct (decide (0 ≤ ix)%Z); [|done].
    destruct (open c _ _) as [[d|] [err|]]; cbn in Hr; eauto.
    + destruct Hr as [[? [=]]|(d' & [= <-] & [e He])]. rewrite He. eauto.
    + by destruct Hr as [[? [=]]|(d' & [=] & _)].
Qed.

Lemma connected_spec c ctx ix d :
  attempt_at c ctx ix = Connected d ↔
  ∃ cnc, (0 ≤ ix)%Z ∧ connectors c !! Z.to_nat ix = Some cnc ∧
         open c (Driver cnc) (ConnectionString cnc) = (Some d, None) ∧
         DB_PingContext ctx d = None.
Proof.
  split; [apply connected_inv|].
  intros (cnc & Hpos & Hcnc & Hopen & Hping). unfold attempt_at.
  destruct (decide (0 ≤ ix)%Z); [|done]. by rewrite Hcnc, Hopen, Hping.
Qed.

Lemma mru_valid_range c :
  mru_valid c →
  0 < length (connectors c) ∧
    (-1 ≤ mru c < Z.of_nat (length (connectors c)))%Z ∨
  length (connectors c) = 0 ∧ mru c = (-1)%Z.
Proof. unfold mru_valid. destruct (connectors c); simpl; lia. Qed.


Lemma opened_app (evs evs' : list event) :
  opened (evs ++ evs') = opened evs ++ opened evs'.
Proof. apply omap_app. Qed.

Lemma opened_rotation_start (evs : list event) :
  opened (EvConnectAny :: evs) = opened evs.
Proof. done. Qed.

Lemma opened_attempts c ctx (l : list Z) :
  Forall (λ ix, 0 ≤ ix < Z.of_nat (length (connectors c)))%Z l →
  opened (flat_map (attempt_events c ctx) l) = l.
Proof.
  induction 1 as [|ix l Hix _ IH]; [done|].
  cbn [flat_map]. rewrite opened_app, IH. unfold attempt_events.
  destruct (connectors c !! Z.to_nat ix) as [cnc|] eqn:Hcnc.
  - by destruct (open c _ _) as [[d|] [err|]].
  - apply lookup_ge_None in Hcnc. lia.
Qed.

(** With no connector the loop does not run and the pass fails. *)
Lemma connectany_no_connectors ctx w :
  connectors (conn w) = [] →
  connectany ctx w =
    (Ok (Some (ConnectionFailedError None)), log_more [EvConnectAny] w).
Proof.
  intros Hnil. unfold connectany, mbind, M_bind, emit, get_conn. cbn.
  rewrite Hnil. cbn. by destruct (decide (mru (conn w) = mru (conn w))).
Qed.

(** The log of a pass: the attempts on the probed candidates, in order,
    and then at most the call of the configuration hook. *)
Lemma connectany_log ctx w :
  let c := conn w in
  let N := length (connectors c) in
  fits_int c → mru_valid c →
  ∃ tail,
    log (snd (connectany ctx w)) =
      log w ++ EvConnectAny ::
        flat_map (attempt_events c ctx) (probed c ctx (rotation (mru c) N))
        ++ tail ∧
    (tail = [] ∨ ∃ d, tail = [EvConfigure d]).
Proof.
  intros c N Hfits Hvalid.
  destruct (mru_valid_range c Hvalid) as [[HN Hmru]|[HN Hmru]].
  - rewrite connectany_spec by done. fold c N.
    destruct (settled c ctx (rotation (mru c) N)) as [[ix [d|e| |]]|];
      try (exists []; split; [by rewrite app_nil_r|by left]).
    destruct (decide (ix = mru c));
      [exists []; split; [by rewrite app_nil_r|by left]|].
    destruct (configure c) as [cfg|];
      [|exists []; split; [by rewrite app_nil_r|by left]].
    exists [EvConfigure (Some d)]. split; [|by right; eexists].
    simpl. by rewrite <-app_assoc.
  - rewrite connectany_no_connectors by (by apply nil_length_inv).
    exists []. split; [|by left]. subst N. rewrite HN. done.
Qed.

(** *** Outcomes of a pass *)

(** X10. The first candidate that answers is not the connector [mru]
    points at: its handle is installed, [mru] is its index, and the result
    is that of the configuration hook, nil without a hook; the candidates
    before it, and no other, were opened, in order. *)
Lemma connectany_first_success ctx w l1 ix l2 d :
  let c := conn w in
  let N := length (connectors c) in
  0 < N → fits_int c → (-1 ≤ mru c < Z.of_nat N)%Z →
  rotation (mru c) N = l1 ++ ix :: l2 →
  Forall (refused c ctx) l1 →
  attempt_at c ctx ix = Connected d →
  ix ≠ mru c →
  let w' := snd (connectany ctx w) in
  fst (connectany ctx w) =
    Ok (match configure c with
        | Some cfg => option_map (λ e, ConfigurationError (Some e)) (cfg (Some d))
        | None => None
        end) ∧
  db (conn w') = Some d ∧ mru (conn w') = ix ∧
  opened (log w') = opened (log w) ++ l1 ++ [ix].
Proof.
  intros c N HN Hfits Hmru Hrot Hl1 Hat Hix w'. subst w'.
  assert (¬ refused c ctx ix) as Hnot by (intros [e He]; congruence).
  destruct (first_settled c ctx l1 ix l2 _ Hl1 Hat Hnot) as (Hs & Hp & Hr).
  pose proof (rotation_range (mru c) N HN) as Hrange. fold N in Hrange.
  rewrite connectany_spec by done. fold c N. rewrite Hrot, Hs, Hp.
  assert (opened (flat_map (attempt_events c ctx) (l1 ++ [ix])) = l1 ++ [ix])
    as Hopened.
  { apply opened_attempts. rewrite Hrot in Hrange.
    apply Forall_app in Hrange as [? [? _]%Forall_cons].
    apply Forall_app. split; [done|by constructor]. }
  destruct (decide (ix = mru c)); [done|].
  destruct (configure c) as [cfg|];
    unfold log_more, with_conn, install, with_mru, with_db;
    cbn [fst snd conn log db mru].
  all: split_and!; try done.
  all: rewrite !opened_app, opened_rotation_start, Hopened.
  all: cbn [opened omap]; by rewrite ?app_nil_r.
Qed.

(** The first candidate that answers is the connector [mru] points at
    (the last candidate of the pass): its handle is installed, and the pass
    is reported as failed all the same, because [c.mru == curr]. *)
Lemma connectany_success_at_mru ctx w l1 d :
  let c := conn w in
  let N := length (connectors c) in
  0 < N → fits_int c → (0 ≤ mru c < Z.of_nat N)%Z →
  rotation (mru c) N = l1 ++ [mru c] →
  Forall (refused c ctx) l1 →
  attempt_at c ctx (mru c) = Connected d →
  let w' := snd (connectany ctx w) in
  fst (connectany ctx w) =
    Ok (Some (ConnectionFailedError (errors_Join (Some <$> refusals c ctx l1)))) ∧
  db (conn w') = Some d ∧ mru (conn w') = mru c.
Proof.
  intros c N HN Hfits Hmru Hrot Hl1 Hat w'. subst w'.
  assert (¬ refused c ctx (mru c)) as Hnot by (intros [e He]; congruence).
  destruct (first_settled c ctx l1 (mru c) [] _ Hl1 Hat Hnot) as (Hs & Hp & Hr).
  rewrite connectany_spec by (done || (subst c N; lia)).
  fold c N. rewrite Hrot, Hs, Hr.
  by destruct (decide (mru c = mru c)).
Qed.

(** C4. Every candidate of the pass fails: [connectany] leaves the
    connection as it was ([mru] and the handle included) and returns a
    [ConnectionFailedError] that wraps the join of exactly N errors, the
    i-th being the [ConnectionError] of the i-th candidate probed. *)
Theorem connectany_all_candidates_fail ctx w :
  let c := conn w in
  let N := length (connectors c) in
  1 ≤ N → fits_int c → mru_valid c →
  Forall (refused c ctx) (rotation (mru c) N) →
  ∃ causes w',
    connectany ctx w =
      (Ok (Some (ConnectionFailedError (Some (joinError causes)))), w') ∧
    conn w' = c ∧ mru (conn w') = mru c ∧ db (conn w') = db c ∧
    length causes = N ∧
    Forall2 (λ ix e,
               attempt_at c ctx ix = Refused e ∧
               ∃ cnc op err, connectors c !! Z.to_nat ix = Some cnc ∧
                             e = ConnectionError cnc op (Some err))
            (rotation (mru c) N) causes.
Proof.
  intros c N HN Hfits Hvalid Hall.
  destruct (mru_valid_range c Hvalid) as [[_ Hmru]|[HN0 _]]; [|subst N; lia].
  destruct (all_refused c ctx _ Hall) as (Hs & Hp & Hr).
  exists (refusals c ctx (rotation (mru c) N)).
  exists (log_more (EvConnectAny ::
            flat_map (attempt_events c ctx) (rotation (mru c) N)) w).
  rewrite connectany_spec by (done || (subst c N; lia)).
  fold c N. rewrite Hs, Hp.
  pose proof (Forall2_length _ _ _ Hr) as Hlen.
  rewrite rotation_length in Hlen.
  split_and!; try done.
  - rewrite errors_Join_Some; [done|].
    intros Hnil. rewrite Hnil in Hlen. simpl in Hlen. lia.
  - eapply Forall2_impl; [exact Hr|]. intros ix e He. split; [done|].
    exact (refused_cause c ctx ix e He).
Qed.

(** C5. A pass probes the candidates (m+1)%N, (m+2)%N, ..., (m+N)%N in
    this order and stops after the first that is not refused, so that no
    connector is probed twice; the N candidates are pairwise distinct
    indices of the connector list, they are m+1, ..., N-1, 0, ..., m, and
    0, ..., N-1 when m = -1. *)
Theorem connectany_probe_order ctx w :
  let c := conn w in
  let N := length (connectors c) in
  let m := mru c in
  fits_int c → mru_valid c →
  let w' := snd (connectany ctx w) in
  opened (log w') = opened (log w) ++ probed c ctx (rotation m N) ∧
  probed c ctx (rotation m N) `prefix_of` rotation m N ∧
  NoDup (probed c ctx (rotation m N)) ∧
  (Forall (refused c ctx) (rotation m N) →
   probed c ctx (rotation m N) = rotation m N) ∧
  length (rotation m N) = N ∧
  NoDup (rotation m N) ∧
  Forall (λ ix, 0 ≤ ix < Z.of_nat N)%Z (rotation m N) ∧
  rotation m N = seqZ (m + 1) (Z.of_nat N - 1 - m) ++ seqZ 0 (m + 1) ∧
  (m = (-1)%Z → rotation m N = seqZ 0 (Z.of_nat N)) ∧
  ((0 ≤ m)%Z → last (rotation m N) = Some m).
Proof.
  intros c N m Hfits Hvalid w'. subst w'.
  assert (0 < N ∧ (-1 ≤ m < Z.of_nat N)%Z ∨ N = 0 ∧ m = (-1)%Z) as Hm
    by apply (mru_valid_range c Hvalid).
  assert (Forall (λ ix, 0 ≤ ix < Z.of_nat N)%Z (rotation m N)) as Hrange.
  { destruct N as [|N']; [done|]. apply rotation_range. lia. }
  assert (rotation m N = seqZ (m + 1) (Z.of_nat N - 1 - m) ++ seqZ 0 (m + 1))
    as Hunfold.
  { destruct Hm as [[_ Hm]|[-> ->]]; [by apply rotation_unfold|done]. }
  split_and!.
  - destruct (connectany_log ctx w Hfits Hvalid) as (tail & -> & Htail).
    fold c N m. rewrite opened_app. f_equal.
    rewrite opened_rotation_start, opened_app, opened_attempts.
    + destruct Htail as [->|[d ->]]; cbn; by rewrite app_nil_r.
    + pose proof (probed_prefix c ctx (rotation m N)) as [k Hk].
      rewrite Hk in Hrange. by apply Forall_app in Hrange as [? _].
  - apply probed_prefix.
  - assert (NoDup (rotation m N)) as Hnd
      by (destruct Hm as [[_ Hm]|[-> ->]];
          [by apply rotation_NoDup|constructor]).
    destruct (probed_prefix c ctx (rotation m N)) as [k Hk].
    rewrite Hk in Hnd. by apply NoDup_app in Hnd as [? _].
  - intros Hall. by destruct (all_refused c ctx _ Hall) as (_ & ? & _).
  - apply rotation_length.
  - destruct Hm as [[_ Hm]|[-> ->]]; [by apply rotation_NoDup|constructor].
  - done.
  - done.
  - intros ->. apply rotation_never_connected.
  - intros Hpos. apply rotation_last. lia.
Qed.


(** *** The retry strategies *)

Lemma since_log_more (evs : list event) w w' :
  log w' = log w ++ evs → since w w' = evs.
Proof. unfold since. intros ->. by rewrite drop_app_length. Qed.

(** C8. An operation that fails with an error that is not a bad
    connection: [retry.try] returns that very error after one invocation
    of the operation, without a rotation pass, and leaves the connection
    alone. *)
Theorem retry_try_other_error fuel ctx
    (op : option sql_DB → U → exit * U) w e h :
  op (db (conn w)) (heap w) = (Returns (Some e), h) →
  errors_Is e ErrBadConn = false →
  ∃ w',
    retry_try (S fuel) ctx (closure op) w = (Ok (Some e), w') ∧
    conn w' = conn w ∧ heap w' = h ∧
    since w w' = [EvOp (db (conn w))] ∧
    invocations (since w w') = 1 ∧
    rotations (since w w') = 0 ∧
    opened (since w w') = [].
Proof.
  intros Hop Hnot.
  exists (World (conn w) (tx w) h (log w ++ [EvOp (db (conn w))])).
  assert (since w (World (conn w) (tx w) h (log w ++ [EvOp (db (conn w))]))
          = [EvOp (db (conn w))]) as Hsince by by apply since_log_more.
  rewrite Hsince. split_and!; try done.
  cbn [retry_try]. unfold mbind, M_bind, get_conn, emit, closure, mret, M_ret.
  cbn [conn tx heap log]. rewrite Hop, Hnot. done.
Qed.


(** *** What reaches the log *)

Lemma emits_ret {A} P (a : A) : emits P (mret a : M (U:=U) A).
Proof. intros w. exists []. by rewrite app_nil_r. Qed.

Lemma emits_bind {A B} P (m : M (U:=U) A) (f : A → M (U:=U) B) :
  emits P m → (∀ a, emits P (f a)) → emits P (m ≫= f).
Proof.
  intros Hm Hf w. unfold mbind, M_bind.
  destruct (Hm w) as (evs & Hlog & Hevs).
  destruct (m w) as [[a|r|] w1]; cbn [snd] in *; [|by exists evs..].
  destruct (Hf a w1) as (evs' & Hlog' & Hevs').
  exists (evs ++ evs'). split; [|by apply Forall_app].
  by rewrite Hlog', Hlog, app_assoc.
Qed.

Lemma emits_silent {A} P (m : M (U:=U) A) :
  (∀ w, log (m w).2 = log w) → emits P m.
Proof. intros Hm w. exists []. by rewrite app_nil_r. Qed.

Lemma emits_emit P e : P e → emits P (emit e : M (U:=U) _).
Proof. intros He w. exists [e]. split; [done|by constructor]. Qed.

Lemma emits_panic {A} P r : emits P (panic r : M (U:=U) A).
Proof. by apply emits_silent. Qed.

Lemma emits_out_of_fuel {A} P : emits P (out_of_fuel : M (U:=U) A).
Proof. by apply emits_silent. Qed.

Lemma emits_get_conn P : emits P (get_conn : M (U:=U) _).
Proof. by apply emits_silent. Qed.

Lemma emits_set_db P d : emits P (set_db d : M (U:=U) _).
Proof. by apply emits_silent. Qed.

Lemma emits_set_mru P ix : emits P (set_mru ix : M (U:=U) _).
Proof. by apply emits_silent. Qed.

Lemma emits_set_tx P t : emits P (set_tx t : M (U:=U) _).
Proof. by apply emits_silent. Qed.

Lemma emits_closure {K} P (op : K → U → exit * U) k : emits P (closure op k).
Proof.
  apply emits_silent. intros w. unfold closure. by destruct (op k (heap w)).
Qed.

Create HintDb log discriminated.

#[local] Hint Resolve emits_ret emits_panic emits_out_of_fuel emits_get_conn
  emits_set_db emits_set_mru emits_set_tx emits_closure : log.
#[local] Hint Extern 1 (emits _ (emit _)) =>
  (apply emits_emit; exact I) : log.

(** Goes through a computation built from the pieces above. *)
Ltac emits :=
  repeat first
    [ progress eauto with log
    | apply emits_bind; [|intros ?]
    | match goal with
      | |- emits _ (match ?x with _ => _ end) => destruct x
      | |- emits _ (if ?x then _ else _) => destruct x
      end ].

Lemma emits_connectany_loop ctx n ix errs :
  emits connection_event (connectany_loop ctx n ix errs : M (U:=U) _).
Proof.
  revert ix errs. induction n as [|n IH]; intros ix errs; cbn [connectany_loop].
  - emits.
  - unfold connectors_at. emits.
Qed.

Lemma emits_connectany ctx :
  emits connection_event (connectany ctx : M (U:=U) _).
Proof.
  pose proof (emits_connectany_loop ctx) as Hloop.
  unfold connectany. emits.
Qed.

Lemma emits_Ping_op ctx d :
  emits connection_event (Ping_op ctx d : M (U:=U) _).
Proof. unfold Ping_op. emits. Qed.

Lemma emits_retry_try ctx fuel (op : operation (U:=U)) :
  (∀ d, emits connection_event (op d)) →
  emits connection_event (retry_try fuel ctx op).
Proof.
  pose proof (emits_connectany ctx) as Hany.
  pose proof (emits_Ping_op ctx) as Hping.
  revert op. induction fuel as [|fuel IH]; intros op Hop; cbn [retry_try].
  - emits.
  - unfold reconnect_with, close, connect_with, connectdb_with, Ping_with,
      try_with, noretry_try.
    emits.
Qed.

(** Beginning the transaction makes no call on a transaction. *)
Lemma emits_Transact_begin fuel ctx :
  emits connection_event (Transact_begin fuel ctx : M (U:=U) _).
Proof.
  pose proof (emits_retry_try ctx fuel) as Hretry.
  unfold Transact_begin, connection_try, try_with, noretry_try.
  assert (∀ d, emits connection_event (begin_op d : M (U:=U) _)) as Hbegin
    by (intros d; unfold begin_op; emits).
  emits.
Qed.

Lemma rollbacks_app (evs evs' : list event) :
  rollbacks (evs ++ evs') = rollbacks evs + rollbacks evs'.
Proof. unfold rollbacks. by rewrite omap_app, length_app. Qed.

Lemma commits_app (evs evs' : list event) :
  commits (evs ++ evs') = commits evs + commits evs'.
Proof. unfold commits. by rewrite omap_app, length_app. Qed.

Lemma connection_events_no_transaction (evs : list event) :
  Forall connection_event evs → rollbacks evs = 0 ∧ commits evs = 0.
Proof.
  induction 1 as [|e evs He _ [IH1 IH2]]; [done|].
  change (e :: evs) with ([e] ++ evs).
  rewrite rollbacks_app, commits_app, IH1, IH2. by destruct e.
Qed.

(** The calls of a whole [Transact] are those of the begin, which are not
    on a transaction, and those made afterwards. *)
Lemma Transact_begin_since fuel ctx w w1 w' :
  Transact_begin fuel ctx w = (Ok None, w1) →
  (∃ evs, log w' = log w1 ++ evs) →
  rollbacks (since w w') = rollbacks (since w1 w') ∧
  commits (since w w') = commits (since w1 w').
Proof.
  intros Hb [evs Hlog].
  destruct (emits_Transact_begin fuel ctx w) as (evs0 & Hlog0 & Hevs0).
  rewrite Hb in Hlog0. cbn [snd] in Hlog0.
  destruct (connection_events_no_transaction _ Hevs0) as [Hr Hc].
  rewrite (since_log_more evs w1 w') by done.
  rewrite (since_log_more (evs0 ++ evs) w w')
    by (by rewrite Hlog, Hlog0, app_assoc).
  by rewrite rollbacks_app, commits_app, Hr, Hc.
Qed.

(** *** Transact *)

Lemma error_eqb_refl (e : error) : error_eqb e e = true.
Proof.
  revert e. fix IH 1.
  intros [ |s|s e|s|[e|]|[e|]|cnc op [e|]|txn op [e|]|errs]; cbn;
    rewrite ?bool_decide_eq_true_2 by done; cbn; auto.
  induction errs as [|x errs IHerrs]; [done|].
  rewrite IH. exact IHerrs.
Qed.

Lemma errors_Is_refl (e : error) : errors_Is e e = true.
Proof.
  pose proof (error_eqb_refl e) as He.
  destruct e; cbn [errors_Is]; by rewrite He.
Qed.

(** When [c.try] of the begin closure returns nil, the closure has
    assigned a transaction to [tx]. *)
Lemma retry_try_begin_tx ctx fuel w w1 :
  retry_try fuel ctx begin_op w = (Ok None, w1) → ∃ t, tx w1 = Some t.
Proof.
  revert w. induction fuel as [|fuel IH]; intros w; [done|].
  cbn [retry_try]. unfold mbind at 1 2 3, M_bind at 1 2 3, get_conn, emit.
  cbn [conn tx heap log]. unfold begin_op at 1.
  destruct (db (conn w)) as [d|]; [|done].
  unfold mbind at 1, M_bind at 1, emit. cbn [conn tx heap log].
  destruct (DB_BeginTx d) as [t|err].
  - unfold mbind, M_bind, set_tx, mret, M_ret. cbn.
    intros [= <-]. by exists t.
  - unfold mbind at 1, M_bind at 1, set_tx at 1, mret at 1, M_ret at 1. cbn [conn tx heap log].
    destruct (errors_Is err ErrBadConn); cbn [negb]; [|done].
    unfold mbind at 1, M_bind at 1.
    destruct (reconnect_with _ _ _) as [[[ce|]|r|] w2]; try done.
    apply IH.
Qed.

Lemma Transact_begin_tx fuel ctx w w1 :
  Transact_begin fuel ctx w = (Ok None, w1) → ∃ t, tx w1 = Some t.
Proof.
  unfold Transact_begin, connection_try, try_with.
  unfold mbind at 1 2, M_bind at 1 2, set_tx, get_conn. cbn [conn tx heap log].
  destruct (trymethod (conn w)); [done| |apply retry_try_begin_tx].
  unfold noretry_try, mbind, M_bind, get_conn, emit, begin_op.
  cbn [conn tx heap log].
  destruct (db (conn w)) as [d|]; [|done]. cbn [conn tx heap log].
  destruct (DB_BeginTx d) as [t|err]; cbn; [|done].
  intros [= <-]. by exists t.
Qed.

Lemma Transact_after_begin fuel ctx name
    (op : option sql_Tx → U → exit * U) w w1 :
  Transact_begin fuel ctx w = (Ok None, w1) →
  Transact fuel ctx name op w = Transact_begun name op w1.
Proof. intros Hb. unfold Transact, mbind, M_bind. by rewrite Hb. Qed.

(** What [Transact] does once the transaction [t] has begun, by the way
    the unit of work is left. *)
Lemma Transact_begun_spec name (op : option sql_Tx → U → exit * U) w1 t x h :
  tx w1 = Some t →
  op (Some t) (heap w1) = (x, h) →
  Transact_begun name op w1 =
    match x with
    | Returns None =>
        (Ok (option_map (λ e, TransactionError name "commit" (Some e))
                        (Tx_Commit t)),
         World (conn w1) (tx w1) h (log w1 ++ [EvWork (Some t); EvCommit t]))
    | Returns (Some e) =>
        (Ok (match Tx_Rollback t with
             | Some txerr =>
                 errors_Join [Some (TransactionError name untagged (Some e));
                              Some (TransactionError name "rollback" (Some txerr))]
             | None => Some (TransactionError name untagged (Some e))
             end),
         World (conn w1) (tx w1) h (log w1 ++ [EvWork (Some t); EvRollback t]))
    | Panics r =>
        let err :=
          match r with
          | Some _ =>
              Some (TransactionError name "panic"
                      (Some (errorString debug_Stack)))
          | None => None
          end in
        (Ok (match Tx_Rollback t with
             | Some txerr =>
                 errors_Join [err;
                              Some (TransactionError name "rollback" (Some txerr))]
             | None => err
             end),
         World (conn w1) (tx w1) h (log w1 ++ [EvWork (Some t); EvRollback t]))
    end.
Proof.
  intros Ht Hop.
  unfold Transact_begun, mbind, M_bind, get_tx, emit, recovering, closure.
  cbn [conn tx heap log]. rewrite Ht, Hop.
  destruct x as [[e|]|r]; cbn.
  - unfold mbind, M_bind, emit, mret, M_ret. cbn. rewrite <-app_assoc.
    by destruct (Tx_Rollback t).
  - unfold mbind, M_bind, emit, mret, M_ret. cbn. rewrite <-app_assoc.
    by destruct (Tx_Commit t).
  - unfold Transact_deferred, tx_Rollback, mbind, M_bind, emit, mret, M_ret.
    cbn. rewrite <-app_assoc. by destruct r, (Tx_Rollback t).
Qed.


(** C3, as the code has it.  Once the transaction has begun the unit of
    work is called once; if it returns an error or panics, rollback is
    attempted exactly once and commit is not; if it returns nil, commit is
    attempted exactly once and rollback is not.  The counts are those of
    the whole call of [Transact]. *)
Theorem Transact_rollback_attempts fuel ctx name
    (op : option sql_Tx → U → exit * U) w w1 x h :
  Transact_begin fuel ctx w = (Ok None, w1) →
  op (tx w1) (heap w1) = (x, h) →
  ∃ t,
    tx w1 = Some t ∧
    let w' := snd (Transact fuel ctx name op w) in
    match x with
    | Returns None =>
        since w1 w' = [EvWork (Some t); EvCommit t] ∧
        rollbacks (since w w') = 0 ∧ commits (since w w') = 1
    | _ =>
        since w1 w' = [EvWork (Some t); EvRollback t] ∧
        rollbacks (since w w') = 1 ∧ commits (since w w') = 0
    end.
Proof.
  intros Hb Hop. destruct (Transact_begin_tx _ _ _ _ Hb) as [t Ht].
  exists t. split; [done|]. rewrite Ht in Hop.
  rewrite (Transact_after_begin _ _ _ _ _ _ Hb).
  rewrite (Transact_begun_spec _ _ _ _ _ _ Ht Hop).
  destruct x as [[e|]|r]; cbn [snd].
  all: match goal with
       | |- context [rollbacks (since _ ?w')] =>
           destruct (Transact_begin_since fuel ctx w w1 w' Hb) as [-> ->];
             [by eexists|];
           erewrite (since_log_more _ w1 w') by done
       end.
  all: done.
Qed.

(** C7. The unit of work returns an error [e]: rollback is attempted
    exactly once.  If the rollback succeeds the result is the untagged
    [TransactionError] that wraps [e]; if it fails the result is the join of
    that error with the [TransactionError] tagged "rollback" that wraps the
    failure of the rollback.  Either way [errors.Is] finds [e] in the
    result. *)
Theorem Transact_work_returns_error fuel ctx name
    (op : option sql_Tx → U → exit * U) w w1 e h :
  Transact_begin fuel ctx w = (Ok None, w1) →
  op (tx w1) (heap w1) = (Returns (Some e), h) →
  ∃ t w',
    tx w1 = Some t ∧
    let failed := TransactionError name untagged (Some e) in
    let result :=
      match Tx_Rollback t with
      | None => failed
      | Some txerr =>
          joinError [failed; TransactionError name "rollback" (Some txerr)]
      end in
    Transact fuel ctx name op w = (Ok (Some result), w') ∧
    since w1 w' = [EvWork (Some t); EvRollback t] ∧
    rollbacks (since w w') = 1 ∧
    errors_Is result e = true.
Proof.
  intros Hb Hop. destruct (Transact_begin_tx _ _ _ _ Hb) as [t Ht].
  exists t, (World (conn w1) (tx w1) h
               (log w1 ++ [EvWork (Some t); EvRollback t])).
  split; [done|]. rewrite Ht in Hop.
  rewrite (Transact_after_begin _ _ _ _ _ _ Hb).
  rewrite (Transact_begun_spec _ _ _ _ _ _ Ht Hop).
  split_and!.
  - by destruct (Tx_Rollback t).
  - by apply since_log_more.
  - destruct (Transact_begin_since fuel ctx w w1
                (World (conn w1) (tx w1) h
                   (log w1 ++ [EvWork (Some t); EvRollback t])) Hb)
      as [-> _]; [by eexists|].
    by rewrite (since_log_more [EvWork (Some t); EvRollback t]).
  - pose proof (errors_Is_refl e) as He.
    destruct (Tx_Rollback t); cbn; rewrite He; by rewrite ?orb_true_r.
Qed.

(** Where C6 holds.  The unit of work panics, with a value that is not
    nil (as every panic has since Go 1.21, where [panic(nil)] raises a
    [*runtime.PanicNilError]): rollback is attempted exactly once and
    [Transact] returns.  If the rollback succeeds the result is the
    [TransactionError] tagged "panic" whose cause is the stack trace; if it
    fails the result is the join of that error with the one tagged
    "rollback".  Either way the result is, for [errors.Is], a
    [TransactionError] of this transaction tagged "panic". *)
Theorem Transact_work_panics fuel ctx name
    (op : option sql_Tx → U → exit * U) w w1 v h :
  Transact_begin fuel ctx w = (Ok None, w1) →
  op (tx w1) (heap w1) = (Panics (Some v), h) →
  ∃ t w',
    tx w1 = Some t ∧
    let panicked :=
      TransactionError name "panic" (Some (errorString debug_Stack)) in
    let result :=
      match Tx_Rollback t with
      | None => panicked
      | Some txerr =>
          joinError [panicked; TransactionError name "rollback" (Some txerr)]
      end in
    Transact fuel ctx name op w = (Ok (Some result), w') ∧
    since w1 w' = [EvWork (Some t); EvRollback t] ∧
    rollbacks (since w w') = 1 ∧
    errors_Is result (TransactionError name "panic" None) = true.
Proof.
  intros Hb Hop. destruct (Transact_begin_tx _ _ _ _ Hb) as [t Ht].
  exists t, (World (conn w1) (tx w1) h
               (log w1 ++ [EvWork (Some t); EvRollback t])).
  split; [done|]. rewrite Ht in Hop.
  rewrite (Transact_after_begin _ _ _ _ _ _ Hb).
  rewrite (Transact_begun_spec _ _ _ _ _ _ Ht Hop).
  split_and!.
  - by destruct (Tx_Rollback t).
  - by apply since_log_more.
  - destruct (Transact_begin_since fuel ctx w w1
                (World (conn w1) (tx w1) h
                   (log w1 ++ [EvWork (Some t); EvRollback t])) Hb)
      as [-> _]; [by eexists|].
    by rewrite (since_log_more [EvWork (Some t); EvRollback t]).
  - destruct (Tx_Rollback t); cbn;
      rewrite !bool_decide_eq_true_2 by done; by rewrite ?orb_true_r.
Qed.

(** Where C6 fails.  The unit of work panics and [recover()] returns nil:
    the deferred function takes it that there was no panic.  Rollback is
    attempted once, and [Transact] returns nil if the rollback succeeds;
    otherwise the join of the rollback error alone.  No error tagged
    "panic" is built. *)
Lemma Transact_work_panics_nil fuel ctx name
    (op : option sql_Tx → U → exit * U) w w1 h :
  Transact_begin fuel ctx w = (Ok None, w1) →
  op (tx w1) (heap w1) = (Panics None, h) →
  ∃ t w',
    tx w1 = Some t ∧
    Transact fuel ctx name op w =
      (Ok (option_map
             (λ txerr, joinError [TransactionError name "rollback" (Some txerr)])
             (Tx_Rollback t)), w') ∧
    since w1 w' = [EvWork (Some t); EvRollback t] ∧
    rollbacks (since w w') = 1.
Proof.
  intros Hb Hop. destruct (Transact_begin_tx _ _ _ _ Hb) as [t Ht].
  exists t, (World (conn w1) (tx w1) h
               (log w1 ++ [EvWork (Some t); EvRollback t])).
  split; [done|]. rewrite Ht in Hop.
  rewrite (Transact_after_begin _ _ _ _ _ _ Hb).
  rewrite (Transact_begun_spec _ _ _ _ _ _ Ht Hop).
  split_and!.
  - by destruct (Tx_Rollback t).
  - by apply since_log_more.
  - destruct (Transact_begin_since fuel ctx w w1
                (World (conn w1) (tx w1) h
                   (log w1 ++ [EvWork (Some t); EvRollback t])) Hb)
      as [-> _]; [by eexists|].
    by rewrite (since_log_more [EvWork (Some t); EvRollback t]).
Qed.

(** *** Configuration *)

Lemma dedup_seen_ext (s1 s2 l : list Connector) :
  (∀ x, x ∈ s1 ↔ x ∈ s2) → dedup_seen s1 l = dedup_seen s2 l.
Proof.
  revert s1 s2. induction l as [|x l IH]; intros s1 s2 Hs; simpl; [done|].
  destruct (decide (x ∈ s1)) as [H1|H1], (decide (x ∈ s2)) as [H2|H2];
    try (exfalso; apply Hs in H1 || apply Hs in H2; done).
  - by apply IH.
  - f_equal. apply IH. intros y. rewrite !elem_of_cons, Hs. done.
Qed.

Lemma dedup_seen_elem (s l : list Connector) x :
  x ∈ dedup_seen s l ↔ (x ∉ s) ∧ (x ∈ l).
Proof.
  revert s. induction l as [|y l IH]; intros s; simpl.
  - rewrite elem_of_nil. tauto.
  - destruct (decide (y ∈ s)) as [Hy|Hy].
    + rewrite IH, elem_of_cons. split; [tauto|].
      intros [Hx [->|Hl]]; tauto.
    + rewrite !elem_of_cons, IH, elem_of_cons.
      destruct (decide (x = y)) as [->|Hne]; tauto.
Qed.

Lemma dedup_seen_NoDup (s l : list Connector) : NoDup (dedup_seen s l).
Proof.
  revert s. induction l as [|y l IH]; intros s; simpl; [constructor|].
  destruct (decide (y ∈ s)); [done|]. constructor; [|done].
  rewrite dedup_seen_elem, elem_of_cons. tauto.
Qed.

Lemma dedup_seen_app (s l1 l2 : list Connector) :
  dedup_seen s (l1 ++ l2) = dedup_seen s l1 ++ dedup_seen (l1 ++ s) l2.
Proof.
  revert s. induction l1 as [|x l1 IH]; intros s; simpl; [done|].
  destruct (decide (x ∈ s)) as [Hx|Hx]; rewrite IH; simpl; f_equal.
  - apply dedup_seen_ext. intros y. rewrite elem_of_cons.
    split; [tauto|]. intros [->|Hy]; [|done]. apply elem_of_app. tauto.
  - f_equal. apply dedup_seen_ext. intros y.
    rewrite !elem_of_cons, !elem_of_app, elem_of_cons. tauto.
Qed.

Lemma dedup_seen_fresh (s l : list Connector) :
  NoDup l → (∀ x, x ∈ l → x ∉ s) → dedup_seen s l = l.
Proof.
  intros Hl. revert s. induction Hl as [|x l Hx Hl IH]; intros s Hs; simpl; [done|].
  destruct (decide (x ∈ s)) as [Hxs|Hxs].
  - destruct (Hs x); [by left|done].
  - f_equal. apply IH. intros y Hy. rewrite elem_of_cons.
    intros [->|Hys]; [done|]. destruct (Hs y); [by right|done].
Qed.

Lemma dedup_first_app (l1 l2 : list Connector) :
  NoDup l1 → dedup_first (l1 ++ l2) = l1 ++ dedup_seen l1 l2.
Proof.
  intros Hl1. unfold dedup_first. rewrite dedup_seen_app. f_equal.
  - apply dedup_seen_fresh; [done|]. intros x _. apply not_elem_of_nil.
  - by rewrite app_nil_r.
Qed.

Lemma NoDup_app_dedup_seen (l1 l2 : list Connector) :
  NoDup l1 → NoDup (l1 ++ dedup_seen l1 l2).
Proof.
  intros Hl1. apply NoDup_app. split_and!; [done| |apply dedup_seen_NoDup].
  intros x Hx. rewrite dedup_seen_elem. tauto.
Qed.

Lemma add_connector_connectors cnc x :
  connectors (add_connector cnc x) =
    connectors cnc ++ dedup_seen (connectors cnc) [x].
Proof.
  unfold add_connector. simpl. rewrite decide_bool_decide.
  destruct (bool_decide (x ∈ connectors cnc)); simpl; by rewrite ?app_nil_r.
Qed.

Lemma add_connectors_connectors cnc (l : list Connector) :
  connectors (foldl add_connector cnc l) =
    connectors cnc ++ dedup_seen (connectors cnc) l.
Proof.
  revert cnc. induction l as [|x l IH]; intros cnc.
  - simpl. by rewrite app_nil_r.
  - cbn [foldl]. rewrite IH, add_connector_connectors.
    change (x :: l) with ([x] ++ l). rewrite dedup_seen_app, <-app_assoc.
    do 2 f_equal. apply dedup_seen_ext. intros y.
    rewrite !elem_of_app, dedup_seen_elem.
    destruct (decide (y ∈ connectors cnc)); tauto.
Qed.

Lemma add_connector_fields c x :
  db (add_connector c x) = db c ∧
  configure (add_connector c x) = configure c ∧
  pingTimeout (add_connector c x) = pingTimeout c.
Proof. unfold add_connector. by destruct (bool_decide _). Qed.

Lemma add_connectors_fields (l : list Connector) c :
  db (foldl add_connector c l) = db c ∧
  configure (foldl add_connector c l) = configure c ∧
  pingTimeout (foldl add_connector c l) = pingTimeout c.
Proof.
  revert c. induction l as [|x l IH]; intros c; [done|].
  cbn [foldl]. destruct (IH (add_connector c x)) as (-> & -> & ->).
  apply add_connector_fields.
Qed.

Lemma add_connectors_present (cs : list Connector) c :
  (∀ x, x ∈ cs → x ∈ connectors c) → foldl add_connector c cs = c.
Proof.
  induction cs as [|x cs IH]; intros Hin; [done|].
  cbn [foldl]. unfold add_connector at 2.
  rewrite bool_decide_eq_true_2 by (apply Hin; left).
  apply IH. intros y Hy. apply Hin. by right.
Qed.

(** One configuration call: it fails and leaves the connectors alone, or
    it appends the connectors it names that are not yet there. *)
Lemma configuration_func_connectors (o : option_call) cnc :
  let r := configuration_func o cnc in
  match r.1 with
  | Some _ => connectors r.2 = connectors cnc
  | None =>
      connectors r.2 =
        connectors cnc ++ dedup_seen (connectors cnc) (added o)
  end.
Proof.
  destruct o; cbn.
  - unfold WithConnector. destruct (db cnc); [done|].
    apply add_connector_connectors.
  - unfold WithConnectors. destruct (db cnc); [done|].
    apply add_connectors_connectors.
  - unfold WithDbConfiguration. destruct (db cnc); cbn; by rewrite ?app_nil_r.
  - unfold WithDb. destruct (decide _); [done|].
    destruct (configure cnc); cbn; by rewrite ?app_nil_r.
  - unfold WithPingTimeout. destruct (decide _); cbn; by rewrite ?app_nil_r.
  - by rewrite app_nil_r.
  - by rewrite app_nil_r.
Qed.

(** A call that fails leaves the connection as it was. *)
Lemma configuration_func_fails (o : option_call) c err c1 :
  configuration_func o c = (Some err, c1) → c1 = c.
Proof.
  destruct o; cbn [configuration_func].
  - unfold WithConnector. destruct (db c); [|done]. by intros [= _ <-].
  - unfold WithConnectors. destruct (db c); [|done]. by intros [= _ <-].
  - unfold WithDbConfiguration. destruct (db c); [|done]. by intros [= _ <-].
  - unfold WithDb. destruct (decide _); [by intros [= _ <-]|].
    destruct (configure c); [|done]. by intros [= _ <-].
  - unfold WithPingTimeout. destruct (decide _); [|done]. by intros [= _ <-].
  - done.
  - done.
Qed.

(** [WithConnector] and [WithConnectors] fail for one reason only: the
    connection has a handle. *)
Lemma adds_connectors_fails (o : option_call) c err :
  adds_connectors o → (configuration_func o c).1 = Some err →
  is_Some (db c) ∧ err = ErrWithDbAndWithConnectorsIsInvalid.
Proof.
  destruct o; try done; intros _; cbn [configuration_func].
  - unfold WithConnector. destruct (db c); [|done].
    intros [= <-]. by split.
  - unfold WithConnectors. destruct (db c); [|done].
    intros [= <-]. by split.
Qed.

(** On a connection without a handle they return nil, whether or not the
    connectors they name are there already; they append those that are
    not, and when all are there the connection is left as it is. *)
Lemma adds_connectors_accepted (o : option_call) c :
  adds_connectors o → db c = None →
  (configuration_func o c).1 = None ∧
  connectors (configuration_func o c).2
    = connectors c ++ dedup_seen (connectors c) (added o) ∧
  ((∀ x, x ∈ added o → x ∈ connectors c) → (configuration_func o c).2 = c).
Proof.
  destruct o as [x|xs| | | | |]; try done; intros _ Hdb;
    cbn [configuration_func added].
  - unfold WithConnector. rewrite Hdb. cbn [fst snd].
    split_and!; [done|apply add_connector_connectors|].
    intros Hin. unfold add_connector.
    rewrite bool_decide_eq_true_2; [done|]. apply Hin. left.
  - unfold WithConnectors. rewrite Hdb. cbn [fst snd].
    split_and!; [done|apply add_connectors_connectors|].
    apply add_connectors_present.
Qed.

Lemma adds_connectors_all (calls : list option_call) c :
  db c = None → Forall adds_connectors calls →
  (configure_all (configuration_func <$> calls) c).1 = None.
Proof.
  intros Hdb Hcalls. revert c Hdb.
  induction Hcalls as [|o calls Ho _ IH]; intros c Hdb; [done|].
  cbn [fmap list_fmap configure_all].
  destruct (adds_connectors_accepted o c Ho Hdb) as (Hnone & _ & _).
  assert (db (configuration_func o c).2 = None) as Hdb1.
  { destruct o as [x|xs| | | | |]; try done; cbn [configuration_func].
    - unfold WithConnector. rewrite Hdb. cbn [snd].
      by destruct (add_connector_fields c x) as (-> & _).
    - unfold WithConnectors. rewrite Hdb. cbn [snd].
      by destruct (add_connectors_fields xs c) as (-> & _). }
  destruct (configuration_func o c) as [[err|] c1]; cbn [fst snd] in *;
    [done|].
  by apply IH.
Qed.

(** The connectors after a sequence of calls: those of the calls applied,
    which are the calls up to the first that fails. *)
Lemma configure_all_connectors (calls : list option_call) c :
  NoDup (connectors c) →
  let r := configure_all (configuration_func <$> calls) c in
  NoDup (connectors r.2) ∧
  ∃ applied rest,
    calls = applied ++ rest ∧
    configure_all (configuration_func <$> applied) c = (None, r.2) ∧
    connectors r.2 = dedup_first (connectors c ++ mjoin (added <$> applied)) ∧
    match r.1 with
    | None => rest = []
    | Some err =>
        ∃ o rest', rest = o :: rest' ∧
                   configuration_func o r.2 = (Some err, r.2)
    end.
Proof.
  revert c. induction calls as [|o calls IH]; intros c Hc.
  - cbn. split; [done|]. exists [], []. split_and!; try done.
    cbn. rewrite app_nil_r. unfold dedup_first.
    symmetry. apply dedup_seen_fresh; [done|]. intros x _. apply not_elem_of_nil.
  - cbn [fmap list_fmap configure_all].
    pose proof (configuration_func_connectors o c) as Ho. cbn zeta in Ho.
    destruct (configuration_func o c) as [[err|] c1] eqn:Hoc; cbn [fst snd] in *.
    + pose proof (configuration_func_fails o c err c1 Hoc) as ->.
      split; [done|].
      exists [], (o :: calls). split_and!; [done|done| |by exists o, calls].
      cbn. rewrite app_nil_r. unfold dedup_first.
      symmetry. apply dedup_seen_fresh; [done|]. intros x _. apply not_elem_of_nil.
    + rename Ho into Hc1.
      assert (NoDup (connectors c1)) as Hnd
        by (rewrite Hc1; by apply NoDup_app_dedup_seen).
      destruct (IH c1 Hnd) as (Hnd' & applied & rest & Hcalls & Happlied &
                               Heq & Hrest).
      split; [done|]. exists (o :: applied), rest. split_and!.
      * by rewrite Hcalls.
      * cbn [fmap list_fmap configure_all]. by rewrite Hoc.
      * rewrite Heq, Hc1. cbn [fmap list_fmap mjoin list_join].
        rewrite !dedup_first_app, <-app_assoc by
          (done || by apply NoDup_app_dedup_seen).
        f_equal. rewrite dedup_seen_app. f_equal.
        apply dedup_seen_ext. intros x.
        rewrite !elem_of_app, dedup_seen_elem.
        destruct (decide (x ∈ connectors c)); tauto.
      * done.
Qed.

(** C10. [WithConnector] and [WithConnectors] skip a connector that is
    already there, silently: on a connection without a handle they return
    nil whether or not the connectors they name are there, append those
    that are not, each once, and leave the connection as it is when all
    are there; the only error they ever return is the one for a
    connection that has a handle.  So whatever configuration calls are
    applied to a connection whose connectors are pairwise distinct, the
    connectors stay pairwise distinct: the list is the connectors it had
    followed by the connectors named by the calls applied, each kept at
    its first occurrence only, where the calls applied are all the calls
    up to the first that fails, if any does.  A sequence of
    [WithConnector] and [WithConnectors] calls on a connection without a
    handle is applied as a whole. *)
Theorem configured_connectors_distinct (calls : list option_call) c :
  NoDup (connectors c) →
  let r := configure_all (configuration_func <$> calls) c in
  NoDup (connectors r.2) ∧
  (∃ applied rest,
     calls = applied ++ rest ∧
     configure_all (configuration_func <$> applied) c = (None, r.2) ∧
     connectors r.2
       = dedup_first (connectors c ++ mjoin (added <$> applied)) ∧
     match r.1 with
     | None => rest = []
     | Some err =>
         ∃ o rest',
           rest = o :: rest' ∧
           configuration_func o r.2 = (Some err, r.2) ∧
           (adds_connectors o →
            is_Some (db r.2) ∧ err = ErrWithDbAndWithConnectorsIsInvalid)
     end) ∧
  (∀ o c',
     adds_connectors o → db c' = None →
     (configuration_func o c').1 = None ∧
     connectors (configuration_func o c').2
       = connectors c' ++ dedup_seen (connectors c') (added o) ∧
     ((∀ x, x ∈ added o → x ∈ connectors c') →
      (configuration_func o c').2 = c')) ∧
  (db c = None → Forall adds_connectors calls →
   r.1 = None ∧
   connectors r.2 = dedup_first (connectors c ++ mjoin (added <$> calls))).
Proof.
  intros Hc. cbn zeta.
  destruct (configure_all_connectors calls c Hc)
    as (Hnd & applied & rest & Hcalls & Happlied & Heq & Hrest).
  split_and!.
  - done.
  - exists applied, rest. split_and!; try done.
    destruct (configure_all _ c).1 as [err|]; [|done].
    destruct Hrest as (o & rest' & -> & Ho).
    exists o, rest'. split_and!; try done.
    intros Hadds. apply (adds_connectors_fails o _ err Hadds).
    by rewrite Ho.
  - apply adds_connectors_accepted.
  - intros Hdb Hadds.
    pose proof (adds_connectors_all calls c Hdb Hadds) as Hnone.
    split; [done|].
    rewrite Hnone in Hrest. subst rest. rewrite app_nil_r in Hcalls.
    by subst applied.
Qed.


(** *** The invariant of [mru] *)

Lemma attempt_at_same_setup ctx c c' ix :
  same_setup c c' → attempt_at c' ctx ix = attempt_at c ctx ix.
Proof. intros (Hc & Ho & _). unfold attempt_at. by rewrite Hc, Ho. Qed.

Lemma same_setup_refl c : same_setup c c.
Proof. by repeat split. Qed.

Lemma same_setup_trans c1 c2 c3 :
  same_setup c1 c2 → same_setup c2 c3 → same_setup c1 c3.
Proof.
  intros (?&?&?&?&?&?) (?&?&?&?&?&?). repeat split; congruence.
Qed.

Lemma mru_step_refl ctx c : mru_step ctx c c.
Proof. split; [apply same_setup_refl|by left]. Qed.

Lemma mru_step_trans ctx c1 c2 c3 :
  mru_step ctx c1 c2 → mru_step ctx c2 c3 → mru_step ctx c1 c3.
Proof.
  intros [Hs12 H12] [Hs23 H23]. split; [by eapply same_setup_trans|].
  destruct H23 as [->|[d Hd]]; [done|]. right. exists d.
  by rewrite <-(attempt_at_same_setup ctx c1 c2).
Qed.

Lemma mru_step_valid ctx c c' :
  fits_int c → mru_valid c → mru_step ctx c c' →
  fits_int c' ∧ mru_valid c'.
Proof.
  intros Hfits Hvalid [Hs Hm]. pose proof Hs as (Hc & _).
  unfold fits_int, mru_valid in *. rewrite Hc. split; [done|].
  destruct Hm as [->|[d Hd]]; [done|]. right.
  apply connected_inv in Hd as (cnc & Hpos & Hcnc & _).
  apply lookup_lt_Some in Hcnc. lia.
Qed.

Create HintDb mru discriminated.

Lemma respects_ret {A} ctx (a : A) : respects_mru ctx (mret a : M (U:=U) A).
Proof. intros w _ _. apply mru_step_refl. Qed.

Lemma respects_bind {A B} ctx (m : M (U:=U) A) (f : A → M (U:=U) B) :
  respects_mru ctx m → (∀ a, respects_mru ctx (f a)) →
  respects_mru ctx (m ≫= f).
Proof.
  intros Hm Hf w Hfits Hvalid. unfold mbind, M_bind.
  specialize (Hm w Hfits Hvalid).
  destruct (m w) as [[a|r|] w1]; try done. cbn [snd] in Hm.
  destruct (mru_step_valid _ _ _ Hfits Hvalid Hm) as [Hfits1 Hvalid1].
  eapply mru_step_trans; [exact Hm|]. by apply Hf.
Qed.

Lemma respects_panic {A} ctx r : respects_mru ctx (panic r : M (U:=U) A).
Proof. intros w _ _. apply mru_step_refl. Qed.

Lemma respects_out_of_fuel {A} ctx :
  respects_mru ctx (out_of_fuel : M (U:=U) A).
Proof. intros w _ _. apply mru_step_refl. Qed.

Lemma respects_get_conn ctx : respects_mru ctx (get_conn : M (U:=U) _).
Proof. intros w _ _. apply mru_step_refl. Qed.

Lemma respects_emit ctx e : respects_mru ctx (emit e : M (U:=U) _).
Proof. intros w _ _. apply mru_step_refl. Qed.

Lemma respects_get_tx ctx : respects_mru ctx (get_tx : M (U:=U) _).
Proof. intros w _ _. apply mru_step_refl. Qed.

Lemma respects_set_tx ctx t : respects_mru ctx (set_tx t : M (U:=U) _).
Proof. intros w _ _. apply mru_step_refl. Qed.

Lemma respects_set_db ctx d : respects_mru ctx (set_db d : M (U:=U) _).
Proof. intros w _ _. split; [by repeat split|by left]. Qed.

Lemma respects_closure {K} ctx (op : K → U → exit * U) k :
  respects_mru ctx (closure op k).
Proof.
  intros w _ _. unfold closure. destruct (op k (heap w)). apply mru_step_refl.
Qed.

Lemma respects_recovering {A} ctx (m : M (U:=U) A) :
  respects_mru ctx m → respects_mru ctx (recovering m).
Proof.
  intros Hm w Hfits Hvalid. specialize (Hm w Hfits Hvalid).
  unfold recovering. by destruct (m w) as [[a|r|] w1].
Qed.

Lemma respects_connectany ctx :
  respects_mru ctx (connectany ctx : M (U:=U) _).
Proof.
  intros w Hfits Hvalid.
  destruct (mru_valid_range _ Hvalid) as [[HN Hmru]|[HN Hmru]].
  - rewrite connectany_spec by done.
    destruct (settled _ _ _) as [[ix [d|e| |]]|] eqn:Hs;
      try apply mru_step_refl.
    apply settled_inv in Hs as (l1 & l2 & _ & _ & Hat & _).
    assert (mru_step ctx (conn w) (install d ix (conn w))) as Hstep.
    { split; [by repeat split|]. right. by exists d. }
    destruct (decide (ix = mru (conn w))); [done|].
    by destruct (configure (conn w)).
  - rewrite connectany_no_connectors by (by apply nil_length_inv).
    apply mru_step_refl.
Qed.

#[local] Hint Resolve respects_ret respects_panic respects_out_of_fuel
  respects_get_conn respects_emit respects_get_tx respects_set_tx
  respects_set_db respects_closure respects_recovering
  respects_connectany : mru.

(** Goes through a computation built from the pieces above. *)
Ltac respects :=
  repeat first
    [ progress eauto with mru
    | apply respects_bind; [|intros ?]
    | apply respects_recovering
    | match goal with
      | |- respects_mru _ (match ?x with _ => _ end) => destruct x
      | |- respects_mru _ (if ?x then _ else _) => destruct x
      end ].

Lemma respects_close ctx force :
  respects_mru ctx (close force : M (U:=U) _).
Proof. unfold close. respects. Qed.

Lemma respects_Ping_op ctx d :
  respects_mru ctx (Ping_op ctx d : M (U:=U) _).
Proof. unfold Ping_op. respects. Qed.

Lemma respects_begin_op ctx d :
  respects_mru ctx (begin_op d : M (U:=U) _).
Proof. unfold begin_op. respects. Qed.

Lemma respects_noretry_try ctx (op : operation (U:=U)) :
  (∀ d, respects_mru ctx (op d)) → respects_mru ctx (noretry_try op).
Proof. intros Hop. unfold noretry_try. respects. Qed.

#[local] Hint Resolve respects_close respects_Ping_op respects_begin_op
  respects_noretry_try : mru.

Lemma respects_try_with ctx
    (try_ : operation (U:=U) → M (U:=U) (option error)) op :
  (∀ d, respects_mru ctx (op d)) → respects_mru ctx (try_ op) →
  respects_mru ctx (try_with try_ op).
Proof. intros Hop Htry. unfold try_with. respects. Qed.

Lemma respects_reconnect_with ctx
    (try_ : operation (U:=U) → M (U:=U) (option error)) :
  (∀ op, (∀ d, respects_mru ctx (op d)) → respects_mru ctx (try_ op)) →
  respects_mru ctx (reconnect_with try_ ctx).
Proof.
  intros Htry. unfold reconnect_with, connect_with, connectdb_with, Ping_with.
  respects.
Qed.

Lemma respects_retry_try ctx fuel (op : operation (U:=U)) :
  (∀ d, respects_mru ctx (op d)) → respects_mru ctx (retry_try fuel ctx op).
Proof.
  revert op. induction fuel as [|fuel IH]; intros op Hop; cbn [retry_try].
  - respects.
  - respects.
Qed.


Lemma respects_invoke fuel ctx (m : method (U:=U)) :
  respects_mru ctx (invoke fuel ctx m).
Proof.
  pose proof (respects_retry_try ctx fuel) as Hretry.
  destruct m; cbn [invoke].
  - respects.
  - unfold connectdb, connectdb_with, Ping_with. respects.
  - unfold connection_connect, connect_with, connectdb_with, Ping_with.
    respects.
  - unfold reconnect. by apply respects_reconnect_with.
  - respects.
  - unfold Close. respects.
  - unfold Ping, Ping_with. respects.
  - unfold connection_try. respects.
  - respects.
  - respects.
  - unfold Transact, Transact_begin, Transact_begun, Transact_deferred,
      tx_Commit, tx_Rollback, connection_try.
    respects.
Qed.

Lemma configuration_func_mru (o : option_call) c :
  mru (configuration_func o c).2 = mru c.
Proof.
  destruct o; cbn.
  - unfold WithConnector, add_connector. destruct (db c); [done|]. cbn.
    by destruct (bool_decide _).
  - unfold WithConnectors. destruct (db c); [done|]. cbn.
    revert c. induction c0 as [|x l IH]; intros c; [done|].
    cbn [foldl]. rewrite IH. unfold add_connector.
    by destruct (bool_decide _).
  - unfold WithDbConfiguration. by destruct (db c).
  - unfold WithDb. destruct (decide _); [done|]. by destruct (configure c).
  - unfold WithPingTimeout. by destruct (decide _).
  - done.
  - done.
Qed.

Lemma configure_all_mru (calls : list option_call) c :
  mru (configure_all (configuration_func <$> calls) c).2 = mru c.
Proof.
  revert c. induction calls as [|o calls IH]; intros c; [done|].
  cbn [fmap list_fmap configure_all].
  pose proof (configuration_func_mru o c) as Ho.
  destruct (configuration_func o c) as [[err|] c1]; cbn [snd] in *; [done|].
  by rewrite IH.
Qed.

(** C9. [NewConnection] leaves a connection whose [mru] is -1 or the
    index of a connector that opened and answered the ping.  Every method
    of a connection whose [mru] is -1 or a valid index leaves the connectors
    as they were and [mru] -1 or a valid index; if [mru] has changed, the
    connector at the new [mru] opened and answered the ping. *)
Theorem mru_invariant fuel ctx (m : method) w :
  fits_int (conn w) → mru_valid (conn w) →
  (let w' := (invoke fuel ctx m w).2 in
   connectors (conn w') = connectors (conn w) ∧
   mru_valid (conn w') ∧
   (mru (conn w') = mru (conn w) ∨
    ∃ d, attempt_at (conn w) ctx (mru (conn w')) = Connected d)) ∧
  (∀ calls : list option_call,
     fits_int (configure_all (configuration_func <$> calls) new_connection).2 →
     let w' := (NewConnection fuel ctx (configuration_func <$> calls) w).2 in
     mru_valid (conn w') ∧
     (mru (conn w') = (-1)%Z ∨
      ∃ d, attempt_at (conn w') ctx (mru (conn w')) = Connected d)).
Proof.
  intros Hfits Hvalid. split.
  - destruct (respects_invoke fuel ctx m w Hfits Hvalid) as [Hs Hm].
    split_and!; [apply Hs| |done].
    by destruct (mru_step_valid ctx _ _ Hfits Hvalid (conj Hs Hm)).
  - intros calls Hfit. unfold NewConnection.
    pose proof (configure_all_mru calls new_connection) as Hmru.
    destruct (configure_all _ _) as [[err|] c1]; cbn [snd] in *.
    { cbn. split; [by left|by left]. }
    unfold mbind, M_bind, set_conn, mret, M_ret. cbn [conn tx heap log].
    destruct (length (connectors c1)) as [|n] eqn:Hlen.
    { destruct (db c1); cbn; (split; [by left|by left]). }
    match goal with
    | |- context [connection_connect fuel ctx ?w2] =>
        assert (fits_int (conn w2)) as Hfits2 by done;
        assert (mru_valid (conn w2)) as Hvalid2 by (by left);
        destruct (respects_invoke fuel ctx method_connect w2 Hfits2 Hvalid2)
          as [Hs Hm];
        destruct (mru_step_valid ctx _ _ Hfits2 Hvalid2 (conj Hs Hm))
          as [_ Hv];
        cbn [invoke conn] in Hs, Hm, Hv;
        destruct (connection_connect fuel ctx w2) as [[[e|]|r|] w3]
    end.
    all: cbn [snd conn] in *.
    all: split; [done|].
    all: destruct Hm as [Hm|[d Hd]]; [left; by rewrite Hm|right; exists d].
    all: by erewrite attempt_at_same_setup.
Qed.


(** *** One rotation and a retry *)

Lemma invocations_app (evs evs' : list event) :
  invocations (evs ++ evs') = invocations evs + invocations evs'.
Proof. unfold invocations. by rewrite omap_app, length_app. Qed.

Lemma rotations_app (evs evs' : list event) :
  rotations (evs ++ evs') = rotations evs + rotations evs'.
Proof. unfold rotations. by rewrite omap_app, length_app. Qed.

Lemma attempts_no_invocation c ctx (l : list Z) :
  invocations (flat_map (attempt_events c ctx) l) = 0 ∧
  rotations (flat_map (attempt_events c ctx) l) = 0.
Proof.
  induction l as [|ix l [IH1 IH2]]; [done|].
  cbn [flat_map]. rewrite invocations_app, rotations_app, IH1, IH2.
  unfold attempt_events. destruct (connectors c !! Z.to_nat ix); [|done].
  by destruct (open c _ _) as [[d|] [err|]].
Qed.

Lemma pass_same_setup ctx c c' (l : list Z) :
  same_setup c c' →
  settled c' ctx l = settled c ctx l ∧
  probed c' ctx l = probed c ctx l ∧
  refusals c' ctx l = refusals c ctx l ∧
  flat_map (attempt_events c' ctx) l = flat_map (attempt_events c ctx) l.
Proof.
  intros Hsame. pose proof Hsame as (Hc & Ho & _).
  induction l as [|ix l (IH1 & IH2 & IH3 & IH4)]; [done|].
  cbn [settled probed refusals flat_map].
  rewrite (attempt_at_same_setup ctx c c') by done.
  rewrite IH1, IH2, IH3, IH4. unfold attempt_events. by rewrite Hc, Ho.
Qed.

(** X12. The operation fails with a bad connection; the pass that
    follows finds a connector other than the one [mru] points at, and the
    hook, if any, accepts the handle; the operation then succeeds on the
    new handle.  [retry.try] returns nil after two invocations and one
    pass, connected through that connector. *)
Lemma retry_try_rotates_once fuel ctx
    (op : option sql_DB → U → exit * U) w e h1 h2 l1 ix l2 d :
  let c := conn w in
  let N := length (connectors c) in
  0 < N → fits_int c → (-1 ≤ mru c < Z.of_nat N)%Z →
  connect c = connect_connectany →
  op (db c) (heap w) = (Returns (Some e), h1) →
  errors_Is e ErrBadConn = true →
  rotation (mru c) N = l1 ++ ix :: l2 →
  Forall (refused c ctx) l1 →
  attempt_at c ctx ix = Connected d →
  ix ≠ mru c →
  match configure c with Some cfg => cfg (Some d) = None | None => True end →
  op (Some d) h1 = (Returns None, h2) →
  ∃ w',
    retry_try (S (S fuel)) ctx (closure op) w = (Ok None, w') ∧
    db (conn w') = Some d ∧ mru (conn w') = ix ∧ heap w' = h2 ∧
    invocations (since w w') = 2 ∧ rotations (since w w') = 1.
Proof.
  intros c N HN Hfits Hmru Hconnect Hop1 Hbad Hrot Hl1 Hat Hix Hcfg Hop2.
  assert (¬ refused c ctx ix) as Hnot by (intros [e' He']; congruence).
  destruct (first_settled c ctx l1 ix l2 _ Hl1 Hat Hnot) as (Hs & Hp & Hr).
  set (w1 := World c (tx w) h1 (log w ++ [EvOp (db c)])).
  set (closed := match db c with Some d0 => [EvClose d0] | None => [] end).
  set (w2 := World (with_db None c) (tx w) h1 (log w1 ++ closed)).
  assert (close true w1 = (Ok None, w2)) as Hclose.
  { unfold close, mbind, M_bind, get_conn, set_db, set_conn, emit, mret, M_ret.
    subst w2 closed w1. cbn [conn tx heap log].
    destruct (db c) as [d0|] eqn:Hdb; cbn [conn tx heap log].
    - destruct (DB_Close d0); cbn; done.
    - rewrite app_nil_r. subst c. destruct w as [[] ? ? ?].
      cbn in *. by rewrite Hdb. }
  pose proof (connectany_spec ctx w2) as Hany. cbn zeta in Hany.
  cbn [conn w2 connectors with_db mru] in Hany. fold c N in Hany.
  specialize (Hany HN Hfits Hmru).
  assert (same_setup c (with_db None c)) as Hsame by (by repeat split).
  destruct (pass_same_setup ctx _ _ (rotation (mru c) N) Hsame)
    as (Hs' & Hp' & Hr' & _).
  destruct (pass_same_setup ctx _ _ (l1 ++ [ix]) Hsame) as (_ & _ & _ & He').
  rewrite Hs', Hp', Hr', Hrot, Hs, Hp, He' in Hany.
  destruct (decide (ix = mru c)); [done|].
  set (evs := [EvOp (db c)] ++ closed ++ EvConnectAny ::
                flat_map (attempt_events c ctx) (l1 ++ [ix]) ++
                match configure c with
                | Some _ => [EvConfigure (Some d)]
                | None => []
                end ++ [EvOp (Some d)]).
  exists (World (install d ix (with_db None c)) (tx w) h2 (log w ++ evs)).
  split_and!; try done.
  - cbn [retry_try]. unfold mbind at 1 2 3, M_bind at 1 2 3, get_conn, emit.
    unfold closure at 1. cbn [conn tx heap log]. fold c. rewrite Hop1, Hbad.
    cbn [negb]. fold w1.
    unfold mbind at 1, M_bind at 1, reconnect_with.
    unfold mbind at 1, M_bind at 1. rewrite Hclose.
    unfold connect_with, mbind at 1, M_bind at 1, get_conn.
    cbn [conn w2 connect with_db]. rewrite Hconnect, Hany.
    unfold mbind, M_bind, get_conn, emit, closure.
    change (configure (with_db None c)) with (configure c).
    destruct (configure c) as [cfg|]; [rewrite Hcfg|];
      cbn; rewrite Hop2; subst evs closed;
      cbn [app]; rewrite <-?app_assoc; cbn [app]; done.
  - rewrite (since_log_more evs w) by done. subst evs.
    rewrite !invocations_app. cbn [app].
    change (EvConnectAny :: ?l) with ([EvConnectAny] ++ l).
    rewrite !invocations_app.
    destruct (attempts_no_invocation c ctx (l1 ++ [ix])) as [-> _].
    subst closed. by destruct (db c), (configure c).
  - rewrite (since_log_more evs w) by done. subst evs.
    rewrite !rotations_app. cbn [app].
    change (EvConnectAny :: ?l) with ([EvConnectAny] ++ l).
    rewrite !rotations_app.
    destruct (attempts_no_invocation c ctx (l1 ++ [ix])) as [_ ->].
    subst closed. by destruct (db c), (configure c).
Qed.


(** Where C2 fails.  The operation fails with a bad connection, and the
    only connector that answers in the pass is the one [mru] points at:
    the pass installs its handle and reports failure, and [retry.try]
    returns the join of the two errors after one invocation. *)
Lemma retry_try_gives_up_at_mru fuel ctx
    (op : option sql_DB → U → exit * U) w e h1 l1 d :
  let c := conn w in
  let N := length (connectors c) in
  0 < N → fits_int c → (0 ≤ mru c < Z.of_nat N)%Z →
  connect c = connect_connectany →
  op (db c) (heap w) = (Returns (Some e), h1) →
  errors_Is e ErrBadConn = true →
  rotation (mru c) N = l1 ++ [mru c] →
  Forall (refused c ctx) l1 →
  attempt_at c ctx (mru c) = Connected d →
  ∃ w',
    retry_try (S fuel) ctx (closure op) w =
      (Ok (errors_Join
             [Some e;
              Some (ConnectionFailedError
                      (errors_Join (Some <$> refusals c ctx l1)))]), w') ∧
    db (conn w') = Some d ∧ mru (conn w') = mru c ∧ heap w' = h1 ∧
    invocations (since w w') = 1.
Proof.
  intros c N HN Hfits Hmru Hconnect Hop1 Hbad Hrot Hl1 Hat.
  assert (¬ refused c ctx (mru c)) as Hnot by (intros [e' He']; congruence).
  destruct (first_settled c ctx l1 (mru c) [] _ Hl1 Hat Hnot) as (Hs & Hp & Hr).
  set (w1 := World c (tx w) h1 (log w ++ [EvOp (db c)])).
  set (closed := match db c with Some d0 => [EvClose d0] | None => [] end).
  set (w2 := World (with_db None c) (tx w) h1 (log w1 ++ closed)).
  assert (close true w1 = (Ok None, w2)) as Hclose.
  { unfold close, mbind, M_bind, get_conn, set_db, set_conn, emit, mret, M_ret.
    subst w2 closed w1. cbn [conn tx heap log].
    destruct (db c) as [d0|] eqn:Hdb; cbn [conn tx heap log].
    - destruct (DB_Close d0); cbn; done.
    - rewrite app_nil_r. subst c. destruct w as [[] ? ? ?].
      cbn in *. by rewrite Hdb. }
  pose proof (connectany_spec ctx w2) as Hany. cbn zeta in Hany.
  cbn [conn w2 connectors with_db mru] in Hany. fold c N in Hany.
  assert (-1 ≤ mru c < Z.of_nat N)%Z as Hmru' by lia.
  specialize (Hany HN Hfits Hmru').
  assert (same_setup c (with_db None c)) as Hsame by (by repeat split).
  destruct (pass_same_setup ctx _ _ (rotation (mru c) N) Hsame)
    as (Hs' & Hp' & Hr' & _).
  destruct (pass_same_setup ctx _ _ (l1 ++ [mru c]) Hsame)
    as (_ & _ & _ & He').
  rewrite Hs', Hp', Hr', Hrot, Hs, Hp, Hr, He' in Hany.
  destruct (decide (mru c = mru c)); [|done].
  set (evs := [EvOp (db c)] ++ closed ++ EvConnectAny ::
                flat_map (attempt_events c ctx) (l1 ++ [mru c])).
  exists (World (install d (mru c) (with_db None c)) (tx w) h1 (log w ++ evs)).
  split_and!; try done.
  - cbn [retry_try]. unfold mbind at 1 2 3, M_bind at 1 2 3, get_conn, emit.
    unfold closure at 1. cbn [conn tx heap log]. fold c. rewrite Hop1, Hbad.
    cbn [negb]. fold w1.
    unfold mbind at 1, M_bind at 1, reconnect_with.
    unfold mbind at 1, M_bind at 1. rewrite Hclose.
    unfold connect_with, mbind at 1, M_bind at 1, get_conn.
    cbn [conn w2 connect with_db]. rewrite Hconnect, Hany.
    unfold mret, M_ret, with_conn, log_more. subst evs w1 w2.
    cbn [conn tx heap log]. by rewrite <-!app_assoc.
  - rewrite (since_log_more evs w) by done. subst evs.
    rewrite !invocations_app. cbn [app].
    change (EvConnectAny :: ?l) with ([EvConnectAny] ++ l).
    rewrite !invocations_app.
    destruct (attempts_no_invocation c ctx (l1 ++ [mru c])) as [-> _].
    subst closed. by destruct (db c).
Qed.

(** * More of the package *)

(** ** errors.go: what [errors.Is] finds *)

(** X19. Wrapping keeps what [errors.Is] finds: if [e] matches a target,
    so does every error of the package that wraps [e] (through its
    [Unwrap]) and every join that has [e] as a member. *)
Theorem errors_Is_wrapped (e target : error) :
  errors_Is e target = true →
  errors_Is (ConfigurationError (Some e)) target = true ∧
  errors_Is (ConnectionFailedError (Some e)) target = true ∧
  (∀ cnc op, errors_Is (ConnectionError cnc op (Some e)) target = true) ∧
  (∀ txn op, errors_Is (TransactionError txn op (Some e)) target = true) ∧
  (∀ errs, e ∈ errs → errors_Is (joinError errs) target = true).
Proof.
  intros He. split_and!; intros; cbn [errors_Is]; rewrite ?He, ?orb_true_r;
    try done.
  apply orb_true_iff. right. apply existsb_exists. exists e.
  split; [by apply list_elem_of_In|done].
Qed.

(** X20. The [Is] methods match on the kind of error, whatever is
    wrapped: a [ConfigurationError], [ConnectionFailedError] or
    [ConnectionError] matches any target of its kind.  A
    [TransactionError] matches a [TransactionError] target exactly when
    transaction name and phase agree, or when the error it wraps
    matches. *)
Theorem errors_Is_kind (e e' : option error) :
  errors_Is (ConfigurationError e) (ConfigurationError e') = true ∧
  errors_Is (ConnectionFailedError e) (ConnectionFailedError e') = true ∧
  (∀ cnc op cnc' op',
     errors_Is (ConnectionError cnc op e) (ConnectionError cnc' op' e') = true) ∧
  (∀ txn op txn' op',
     errors_Is (TransactionError txn op e) (TransactionError txn' op' e') = true ↔
     (txn = txn' ∧ op = op') ∨
     ∃ x, e = Some x ∧ errors_Is x (TransactionError txn' op' e') = true).
Proof.
  split_and!; intros; cbn [errors_Is error_Is]; rewrite ?orb_true_r; try done.
  rewrite !orb_true_iff, andb_true_iff, !bool_decide_eq_true. split.
  - intros [[Heq|Hname]|Hin].
    + cbn [error_eqb] in Heq.
      rewrite !andb_true_iff, !bool_decide_eq_true in Heq. left. tauto.
    + by left.
    + destruct e as [x|]; [|done]. right. by exists x.
  - intros [Hname|(x & -> & Hx)]; [left; by right|by right].
Qed.

(** ** configuration.go *)

Lemma configuration_func_exclusive (o : option_call) c :
  exclusive c → exclusive (configuration_func o c).2.
Proof.
  intros Hc. destruct o; cbn [configuration_func].
  - unfold WithConnector. destruct (db c) eqn:Hdb; [done|]. left.
    cbn [snd]. destruct (add_connector_fields c c0) as (-> & _). done.
  - unfold WithConnectors. destruct (db c) eqn:Hdb; [done|]. left.
    cbn [snd]. destruct (add_connectors_fields c0 c) as (-> & _). done.
  - unfold WithDbConfiguration. destruct (db c) eqn:Hdb; [done|]. by left.
  - unfold WithDb. destruct (decide _) as [|Hlen]; [done|].
    destruct (configure c) eqn:Hcfg; [done|]. right. cbn.
    split; [|done]. destruct (connectors c); [done|]. cbn in Hlen. lia.
  - unfold WithPingTimeout. by destruct (decide _).
  - done.
  - done.
Qed.

(** X5. Whatever options are applied, in whatever order, a connection
    never ends up with both a handle that was handed in ([WithDb]) and
    connectors or a configuration hook. *)
Theorem configuration_exclusive (calls : list option_call) c :
  exclusive c →
  exclusive (configure_all (configuration_func <$> calls) c).2.
Proof.
  revert c. induction calls as [|o calls IH]; intros c Hc; [done|].
  cbn [fmap list_fmap configure_all].
  pose proof (configuration_func_exclusive o c Hc) as Ho.
  destruct (configuration_func o c) as [[err|] c1]; cbn [snd] in *; [done|].
  by apply IH.
Qed.



(** X7. [WithConnectors] with a slice does what [WithConnector] does for
    its elements one after the other, error included.  (With an empty
    slice on a connection that has a handle, [WithConnectors] fails and
    no call of [WithConnector] is made.) *)
Theorem WithConnectors_as_WithConnector (cs : list Connector) c :
  db c = None ∨ cs ≠ [] →
  WithConnectors cs c = configure_all (WithConnector <$> cs) c.
Proof.
  destruct (db c) as [d|] eqn:Hdb.
  - intros [|Hcs]; [done|]. destruct cs as [|x cs]; [done|].
    cbn [fmap list_fmap configure_all]. unfold WithConnectors, WithConnector.
    by rewrite Hdb.
  - intros _. revert c Hdb. induction cs as [|x cs IH]; intros c Hdb.
    + unfold WithConnectors. by rewrite Hdb.
    + cbn [fmap list_fmap configure_all]. unfold WithConnector at 1.
      rewrite Hdb. rewrite <-IH.
      * unfold WithConnectors. rewrite Hdb.
        destruct (add_connector_fields c x) as (Hd & _). by rewrite Hd, Hdb.
      * destruct (add_connector_fields c x) as (Hd & _). by rewrite Hd.
Qed.

Lemma add_connectors_elem (cs : list Connector) c x :
  x ∈ connectors (foldl add_connector c cs) ↔ x ∈ connectors c ∨ x ∈ cs.
Proof.
  revert c. induction cs as [|y cs IH]; intros c.
  - cbn. rewrite elem_of_nil. tauto.
  - cbn [foldl]. rewrite IH, elem_of_cons. unfold add_connector.
    destruct (bool_decide_reflect (y ∈ connectors c)) as [Hy|Hy].
    + split; [tauto|]. intros [?|[->|?]]; tauto.
    + cbn. rewrite elem_of_app, list_elem_of_singleton. tauto.
Qed.

(** X8. Adding connectors is idempotent: applying [WithConnectors] with
    the same slice a second time changes nothing and gives the same
    result. *)
Theorem WithConnectors_idempotent (cs : list Connector) c :
  WithConnectors cs (WithConnectors cs c).2 = WithConnectors cs c.
Proof.
  unfold WithConnectors at 2. destruct (db c) as [d|] eqn:Hdb; cbn [snd].
  - unfold WithConnectors. by rewrite Hdb.
  - unfold WithConnectors.
    destruct (add_connectors_fields cs c) as (-> & _). rewrite Hdb.
    f_equal. apply add_connectors_present.
    intros x Hx. apply add_connectors_elem. by right.
Qed.

(** ** connection.go: closing *)

Lemma close_spec (force : bool) w :
  close force w =
    match db (conn w) with
    | Some d =>
        (Ok (if force then None else DB_Close d),
         World (with_db None (conn w)) (tx w) (heap w) (log w ++ [EvClose d]))
    | None => (Ok None, w)
    end.
Proof.
  unfold close, mbind, M_bind, get_conn, set_db, set_conn, emit, mret, M_ret.
  cbn [conn tx heap log].
  destruct (db (conn w)) as [d|]; [|done]. cbn [conn tx heap log].
  by destruct (DB_Close d), force.
Qed.

(** X9. [close] drops the handle whether or not the driver's [Close]
    fails, and leaves everything else of the connection alone; a forced
    close reports no error, an unforced one the error of the driver;
    closing again is a no-op that returns nil and makes no call. *)
Theorem close_idempotent (force force' : bool) w :
  let w1 := (close force w).2 in
  db (conn w1) = None ∧
  same_setup (conn w) (conn w1) ∧ mru (conn w1) = mru (conn w) ∧
  (force = true → (close force w).1 = Ok None) ∧
  (∀ d, db (conn w) = Some d →
        since w w1 = [EvClose d] ∧
        (force = false → (close force w).1 = Ok (DB_Close d))) ∧
  close force' w1 = (Ok None, w1).
Proof.
  cbn zeta. rewrite (close_spec force w).
  destruct (db (conn w)) as [d|] eqn:Hdb; cbn [fst snd].
  - split_and!; try done.
    + by intros ->.
    + intros d' [= <-]. split; [by apply since_log_more|by intros ->].
  - split_and!; try done.
    rewrite close_spec. by rewrite Hdb.
Qed.

(** ** context.go *)

(** X21. [TransactionFromContext] returns the transaction handed to the
    latest [ContextWithTransaction] from which the context derives,
    whatever values of other packages and deadlines have been added
    since; if there is none it gives what the context the derivation
    started from gives.  In particular it returns what
    [ContextWithTransaction] was just given, and nil for a context no
    transaction was attached to. *)
Theorem TransactionFromContext_latest (calls : list context_call) ctx :
  TransactionFromContext (foldl derive ctx calls) =
    match last (attached calls) with
    | Some tx => Ok tx
    | None => TransactionFromContext ctx
    end.
Proof.
  induction calls as [|o calls IH] using rev_ind; [done|].
  rewrite foldl_app. cbn [foldl]. unfold attached in *.
  rewrite omap_app. destruct o as [n v|t|tx]; cbn.
  - rewrite app_nil_r, <-IH. done.
  - rewrite app_nil_r, <-IH. done.
  - rewrite last_snoc. by destruct tx.
Qed.

(** ** connection.go: a connection that never connected *)

Lemma settled_None c ctx (l : list Z) :
  settled c ctx l = None → Forall (refused c ctx) l.
Proof.
  induction l as [|ix l IH]; cbn [settled]; [done|].
  destruct (attempt_at c ctx ix) as [d|e| |] eqn:Hat; try done.
  intros Hl. constructor; [by exists e|by apply IH].
Qed.

(** X11. On a connection that never connected ([mru] is -1) the result
    of [connectany] can be trusted: when it returns, it returns a
    [ConnectionFailedError] exactly when every connector was refused,
    and then no handle is installed. *)
Theorem connectany_never_connected ctx w r w' :
  let c := conn w in
  let N := length (connectors c) in
  fits_int c → mru c = (-1)%Z →
  connectany ctx w = (Ok r, w') →
  ((∃ e, r = Some (ConnectionFailedError e)) ↔
   Forall (refused c ctx) (seqZ 0 (Z.of_nat N))) ∧
  ((∃ e, r = Some (ConnectionFailedError e)) → conn w' = c).
Proof.
  intros c N Hfits Hmru. destruct (decide (N = 0)) as [HN|HN].
  - rewrite connectany_no_connectors by (by apply nil_length_inv).
    intros [= <- <-]. rewrite HN. split; [|done].
    split; [constructor|by eexists].
  - rewrite connectany_spec by (done || (subst c N; lia)).
    fold c N. rewrite Hmru, rotation_never_connected.
    destruct (settled c ctx (seqZ 0 (Z.of_nat N)))
      as [[ix [d|e| |]]|] eqn:Hs; try done.
    + apply settled_inv in Hs as (l1 & l2 & Hl & Hl1 & Hat & Hnot).
      assert (¬ Forall (refused c ctx) (seqZ 0 (Z.of_nat N))) as Hsome.
      { rewrite Hl. intros [_ [Hix _]%Forall_cons]%Forall_app. done. }
      assert (ix ≠ (-1)%Z) as Hix.
      { intros ->. by apply connected_inv in Hat as (cnc & ? & _). }
      destruct (decide (ix = (-1)%Z)); [done|].
      destruct (configure c) as [cfg|].
      * intros [= <- <-]. split; [|by destruct (cfg (Some d)); intros [? [=]]].
        split; [|done]. by destruct (cfg (Some d)); intros [? [=]].
      * intros [= <- <-]. split; [|by intros [? [=]]].
        split; [by intros [? [=]]|done].
    + intros [= <- <-]. split; [|done].
      split; [intros _; by apply settled_None|by eexists].
Qed.

(** ** connection.go: [NewConnection] *)

Lemma NewConnection_unfold fuel ctx (cfg : list ConfigurationFunc) w :
  NewConnection fuel ctx cfg w =
    match configure_all cfg new_connection with
    | (Some err, c) =>
        (Ok (false, Some (ConfigurationError (Some err))), with_conn c w)
    | (None, c) =>
        match connectors c with
        | [] =>
            match db c with
            | None =>
                (Ok (false, Some (ConfigurationError
                                    (Some ErrNoConnectorsConfigured))),
                 with_conn c w)
            | Some _ =>
                (Ok (true, None),
                 with_conn (with_methods connect_connectdb noretry c) w)
            end
        | _ :: l =>
            let c2 := with_methods connect_connectany
                        (match l with [] => noretry | _ => retry end) c in
            match connectany ctx (with_conn c2 w) with
            | (Ok (Some e), w') => (Ok (false, Some e), w')
            | (Ok None, w') => (Ok (true, None), w')
            | (Panic r, w') => (Panic r, w')
            | (OutOfFuel, w') => (OutOfFuel, w')
            end
        end
    end.
Proof.
  unfold NewConnection.
  destruct (configure_all cfg new_connection) as [[err|] c]; [done|].
  unfold mbind, M_bind, set_conn, mret, M_ret. cbn [conn tx heap log].
  destruct (connectors c) as [|x l]; cbn [length].
  - by destruct (db c).
  - unfold connection_connect, connect_with, mbind, M_bind, get_conn.
    cbn [conn connect with_methods].
    assert ((match length l with 0 => noretry | S _ => retry end)
            = (match l with [] => noretry | _ :: _ => retry end)) as ->
      by (by destruct l).
    unfold with_conn.
    by destruct (connectany ctx _) as [[[e|]|r|] w'].
Qed.

Lemma seqZ_split (n : Z) (l1 l2 : list Z) (ix : Z) :
  seqZ 0 n = l1 ++ ix :: l2 → l1 = seqZ 0 ix ∧ (0 ≤ ix < n)%Z.
Proof.
  intros Hl.
  assert (seqZ 0 n !! length l1 = Some ix) as Hix
    by (rewrite Hl; by apply list_lookup_middle).
  apply lookup_seqZ in Hix as [Hix Hlt].
  split; [|lia].
  assert (seqZ 0 n = seqZ 0 ix ++ seqZ ix (n - ix)) as Happ.
  { replace n with (ix + (n - ix))%Z at 1 by lia.
    rewrite seqZ_app by lia. done. }
  rewrite Happ in Hl. apply app_inj_1 in Hl as [Hl _]; [done|].
  rewrite length_seqZ. lia.
Qed.

(** What a successful [NewConnection] has done. *)
Lemma NewConnection_success fuel ctx (calls : list option_call) w w' :
  let configured :=
    (configure_all (configuration_func <$> calls) new_connection).2 in
  fits_int configured →
  NewConnection fuel ctx (configuration_func <$> calls) w
    = (Ok (true, None), w') →
  match connectors configured with
  | [] =>
      is_Some (db configured) ∧
      w' = with_conn (with_methods connect_connectdb noretry configured) w
  | _ :: l =>
      let c2 := with_methods connect_connectany
                  (match l with [] => noretry | _ => retry end) configured in
      ∃ d ix,
        Forall (refused configured ctx) (seqZ 0 ix) ∧
        attempt_at configured ctx ix = Connected d ∧
        conn w' = install d ix c2 ∧
        tx w' = tx w ∧ heap w' = heap w ∧
        match configure configured with
        | Some cfg => cfg (Some d) = None
        | None => True
        end
  end.
Proof.
  intros configured Hfits. rewrite NewConnection_unfold.
  pose proof (configure_all_mru calls new_connection) as Hmru.
  change (mru new_connection) with (-1)%Z in Hmru.
  fold configured in Hmru. subst configured.
  destruct (configure_all _ _) as [[err|] c]; cbn [snd] in *; [done|].
  destruct (connectors c) as [|x l] eqn:Hc.
  - destruct (db c); [|done]. intros [= <-]. by split.
  - cbn zeta.
    set (c2 := with_methods connect_connectany
                 (match l with [] => noretry | _ => retry end) c).
    assert (same_setup' : connectors c2 = connectors c ∧ open c2 = open c)
      by done.
    assert (∀ ix, attempt_at c2 ctx ix = attempt_at c ctx ix) as Hat2
      by (intros ix; unfold attempt_at; done).
    assert (∀ l0, settled c2 ctx l0 = settled c ctx l0) as Hs2.
    { induction l0 as [|i l0 IH]; [done|]. cbn [settled].
      by rewrite Hat2, IH. }
    rewrite connectany_spec; cbn [conn with_conn];
      [|cbn; rewrite Hc; cbn; lia|done|cbn; rewrite Hc, Hmru; cbn; lia].
    change (mru c2) with (mru c). change (connectors c2) with (connectors c).
    change (configure c2) with (configure c).
    rewrite Hmru, rotation_never_connected, Hs2.
    destruct (settled c ctx _) as [[ix [d|e| |]]|] eqn:Hs; try done.
    apply settled_inv in Hs as (l1 & l2 & Hl & Hl1 & Hat & Hnot).
    apply seqZ_split in Hl as [-> Hix].
    destruct (decide (ix = (-1)%Z)); [done|].
    destruct (configure c) as [cfg|].
    + destruct (cfg (Some d)) eqn:Hcfg; [done|]. cbn [option_map].
      intros [= <-]. exists d, ix. by split_and!.
    + intros [= <-]. exists d, ix. by split_and!.
Qed.

(** X1. [NewConnection] returns a connection exactly when it returns no
    error.  The connection has the configured connectors, hook and
    timeout, and its strategy goes by the number of connectors: with none
    (a handle was handed in) it keeps that handle, reconnects by ping,
    never retries, and no call was made to the driver; with one it
    connects through the connector and never retries; with more it
    connects through the connectors and retries. *)
Theorem NewConnection_strategy fuel ctx (calls : list option_call)
    w b err w' :
  let configured :=
    (configure_all (configuration_func <$> calls) new_connection).2 in
  fits_int configured →
  NewConnection fuel ctx (configuration_func <$> calls) w
    = (Ok (b, err), w') →
  (b = true ↔ err = None) ∧
  (b = true →
   connectors (conn w') = connectors configured ∧
   configure (conn w') = configure configured ∧
   pingTimeout (conn w') = pingTimeout configured ∧
   is_Some (db (conn w')) ∧
   match connectors configured with
   | [] =>
       connect (conn w') = connect_connectdb ∧
       trymethod (conn w') = noretry ∧
       db (conn w') = db configured ∧ log w' = log w
   | [_] =>
       connect (conn w') = connect_connectany ∧
       trymethod (conn w') = noretry
   | _ =>
       connect (conn w') = connect_connectany ∧
       trymethod (conn w') = retry
   end).
Proof.
  intros configured Hfits Hnew. split.
  - revert Hnew. rewrite NewConnection_unfold.
    destruct (configure_all _ _) as [[e|] c]; [by intros [= <- <-]|].
    destruct (connectors c) as [|x l].
    + destruct (db c); by intros [= <- <-].
    + cbn zeta. destruct (connectany ctx _) as [[[e|]|r|] w2];
        try done; by intros [= <- <-].
  - intros ->.
    assert (err = None) as ->.
    { revert Hnew. rewrite NewConnection_unfold.
      destruct (configure_all _ _) as [[e|] c]; [done|].
      destruct (connectors c) as [|x l].
      - destruct (db c); by intros [= <-].
      - cbn zeta. destruct (connectany ctx _) as [[[e|]|r|] w2];
          try done; by intros [= <-]. }
    pose proof (NewConnection_success fuel ctx calls w w' Hfits Hnew) as Hok.
    fold configured in Hok.
    destruct (connectors configured) as [|x l] eqn:Hc.
    + destruct Hok as [Hdb ->]. cbn. by rewrite Hc.
    + cbn zeta in Hok. destruct Hok as (d & ix & _ & _ & -> & _).
      cbn. rewrite Hc. split_and!; try done.
      by destruct l.
Qed.

(** X2. [NewConnection] with connectors connects through the first
    connector, in the order configured, that opens and answers the
    ping: every connector before it was refused, its handle is the
    handle of the connection and its index is [mru]; the configuration
    hook, if there is one, has accepted the handle. *)
Theorem NewConnection_first_connector fuel ctx (calls : list option_call)
    w w' :
  let configured :=
    (configure_all (configuration_func <$> calls) new_connection).2 in
  fits_int configured →
  connectors configured ≠ [] →
  NewConnection fuel ctx (configuration_func <$> calls) w
    = (Ok (true, None), w') →
  ∃ d,
    db (conn w') = Some d ∧
    attempt_at configured ctx (mru (conn w')) = Connected d ∧
    Forall (refused configured ctx) (seqZ 0 (mru (conn w'))) ∧
    match configure configured with
    | Some cfg => cfg (Some d) = None
    | None => True
    end.
Proof.
  intros configured Hfits Hsome Hnew.
  pose proof (NewConnection_success fuel ctx calls w w' Hfits Hnew) as Hok.
  fold configured in Hok.
  destruct (connectors configured) as [|x l]; [done|].
  cbn zeta in Hok. destruct Hok as (d & ix & Hl1 & Hat & -> & _ & _ & Hcfg).
  exists d. by split_and!.
Qed.

Lemma configuration_func_nothing (o : option_call) c :
  added o = [] → (∀ d, o ≠ call_WithDb (Some d)) →
  connectors c = [] → db c = None →
  connectors (configuration_func o c).2 = [] ∧
  db (configuration_func o c).2 = None.
Proof.
  intros Ho Hd Hc Hdb. destruct o; cbn [configuration_func]; try done.
  - unfold WithConnectors. rewrite Hdb. cbn in Ho. by subst.
  - unfold WithDbConfiguration. by rewrite Hdb.
  - unfold WithDb. destruct (decide _); [done|].
    destruct (configure c); [done|]. cbn. split; [done|].
    destruct d as [d|]; [|done]. by destruct (Hd d).
  - unfold WithPingTimeout. by destruct (decide _).
Qed.

(** X3. With options that name no connector and hand in no handle,
    [NewConnection] returns no connection and a [ConfigurationError]:
    it wraps the error of the option that failed, if one did, and
    [ErrNoConnectorsConfigured] otherwise.  No call is made to the
    driver. *)
Theorem NewConnection_nothing_configured fuel ctx
    (calls : list option_call) w :
  Forall (λ o, added o = [] ∧ ∀ d, o ≠ call_WithDb (Some d)) calls →
  let r := configure_all (configuration_func <$> calls) new_connection in
  NewConnection fuel ctx (configuration_func <$> calls) w =
    (Ok (false,
         Some (ConfigurationError
                 (Some (default ErrNoConnectorsConfigured r.1)))),
     with_conn r.2 w).
Proof.
  intros Hcalls. cbn zeta. rewrite NewConnection_unfold.
  assert (∀ c, connectors c = [] → db c = None →
            let r := configure_all (configuration_func <$> calls) c in
            connectors r.2 = [] ∧ db r.2 = None) as Hnothing.
  { induction Hcalls as [|o calls [Ho Hd] _ IH]; intros c Hc Hdb; [done|].
    cbn [fmap list_fmap configure_all].
    destruct (configuration_func_nothing o c Ho Hd Hc Hdb) as [Hc1 Hdb1].
    destruct (configuration_func o c) as [[e|] c1]; cbn [snd] in *; [done|].
    by apply IH. }
  destruct (Hnothing new_connection eq_refl eq_refl) as [Hc Hdb].
  destruct (configure_all _ _) as [[e|] c]; cbn [fst snd] in *; [done|].
  by rewrite Hc, Hdb.
Qed.

Lemma try_noretry fuel ctx (op : option sql_DB → U → exit * U) w x h :
  trymethod (conn w) = noretry →
  op (db (conn w)) (heap w) = (x, h) →
  connection_try fuel ctx (closure op) w =
    (match x with Returns e => Ok e | Panics r => Panic r end,
     World (conn w) (tx w) h (log w ++ [EvOp (db (conn w))])).
Proof.
  intros Htry Hop.
  unfold connection_try, try_with, noretry_try, mbind, M_bind, get_conn,
    emit, closure.
  cbn [conn tx heap log]. by rewrite Htry, Hop.
Qed.

(** X4. A connection that [NewConnection] built for at most one
    connector (or for a handle that was handed in) never retries: [try]
    invokes the operation once and returns what it returns, a bad
    connection error included, or panics as it does; no connector is
    tried and the connection is left as it was. *)
Theorem single_connector_never_retries fuel ctx (calls : list option_call)
    w w' (op : option sql_DB → U → exit * U) x h :
  let configured :=
    (configure_all (configuration_func <$> calls) new_connection).2 in
  fits_int configured →
  length (connectors configured) ≤ 1 →
  NewConnection fuel ctx (configuration_func <$> calls) w
    = (Ok (true, None), w') →
  op (db (conn w')) (heap w') = (x, h) →
  connection_try fuel ctx (closure op) w' =
    (match x with Returns e => Ok e | Panics r => Panic r end,
     World (conn w') (tx w') h (log w' ++ [EvOp (db (conn w'))])).
Proof.
  intros configured Hfits Hlen Hnew Hop.
  apply try_noretry; [|done].
  pose proof (NewConnection_success fuel ctx calls w w' Hfits Hnew) as Hok.
  fold configured in Hok.
  destruct (connectors configured) as [|x1 [|x2 l]].
  - by destruct Hok as [_ ->].
  - cbn zeta in Hok. by destruct Hok as (d & ix & _ & _ & -> & _).
  - cbn in Hlen. lia.
Qed.

(** ** connection.go: [Ping] *)

Lemma Ping_op_spec ctx (d : option sql_DB) w :
  let ctx' := WithTimeout ctx (ping_timeout (conn w)) in
  Ping_op ctx d w =
    match d with
    | Some d => (Ok (DB_PingContext ctx' d), log_more [EvPing ctx' d] w)
    | None => (Panic (Some nil_dereference), w)
    end.
Proof.
  unfold Ping_op, ping_timeout, mbind, M_bind, get_conn, emit, mret, M_ret,
    panic.
  by destruct d.
Qed.

(** X22. [Ping] on a live handle makes one ping, under a context that
    carries the timeout of the connection, or the default of the
    package when that is zero, and returns what the ping returns,
    provided it is not a bad connection error on a connection that
    retries; no connector is tried.  Without a handle (after [Close])
    [Ping] does not reconnect: it panics on the nil handle. *)
Theorem Ping_live_handle fuel ctx w :
  trymethod (conn w) ≠ trymethod_nil →
  let ctx' := WithTimeout ctx (ping_timeout (conn w)) in
  match db (conn w) with
  | Some d =>
      (trymethod (conn w) = noretry ∨
       ∀ e, DB_PingContext ctx' d = Some e → errors_Is e ErrBadConn = false) →
      Ping (S fuel) ctx w =
        (Ok (DB_PingContext ctx' d),
         log_more [EvOp (Some d); EvPing ctx' d] w)
  | None =>
      Ping (S fuel) ctx w =
        (Panic (Some nil_dereference), log_more [EvOp None] w)
  end.
Proof.
  intros Htry. cbn zeta.
  assert (∀ d0 d, Ping_op ctx d (log_more [EvOp d0] w) =
            match d with
            | Some d =>
                (Ok (DB_PingContext
                       (WithTimeout ctx (ping_timeout (conn w))) d),
                 log_more [EvOp d0;
                           EvPing (WithTimeout ctx (ping_timeout (conn w))) d]
                          w)
            | None => (Panic (Some nil_dereference), log_more [EvOp d0] w)
            end) as Hop.
  { intros d0 d. rewrite Ping_op_spec. destruct d as [d|]; [|done].
    by rewrite log_more_log_more. }
  destruct (db (conn w)) as [d|] eqn:Hdb; [intros Hcase|].
  all: unfold Ping, Ping_with, try_with, mbind at 1, M_bind at 1, get_conn.
  all: destruct (trymethod (conn w)) eqn:Ht; [done| |].
  all: try (unfold noretry_try, mbind, M_bind, get_conn, emit;
            cbn [conn tx heap log]; rewrite Hdb;
            match goal with
            | |- context [Ping_op ?c ?x (World _ _ _ (_ ++ [EvOp ?y]))] =>
                change (Ping_op c x (World _ _ _ (_ ++ [EvOp y])))
                  with (Ping_op c x (log_more [EvOp y] w))
            end;
            by rewrite Hop).
  all: cbn [retry_try]; unfold mbind at 1 2 3, M_bind at 1 2 3, get_conn, emit;
    cbn [conn tx heap log]; rewrite Hdb.
  - destruct Hcase as [|Hbad]; [done|].
    change (World (conn w) (tx w) (heap w) (log w ++ [EvOp (Some d)]))
      with (log_more [EvOp (Some d)] w).
    rewrite Hop.
    destruct (DB_PingContext _ d) as [e|] eqn:Hping; [|done].
    by rewrite (Hbad e eq_refl).
  - change (World (conn w) (tx w) (heap w) (log w ++ [EvOp None]))
      with (log_more [EvOp None] w).
    by rewrite Hop.
Qed.

(** ** trymethod.go: more of [retry.try] *)

(** One turn of the loop of [retry.try] that ends in a retry: the
    operation fails with a bad connection, and the pass finds a connector
    other than the one [mru] points at. *)
Lemma retry_try_turn fuel ctx
    (op : option sql_DB → U → exit * U) w e h1 l1 ix l2 d :
  let c := conn w in
  let N := length (connectors c) in
  0 < N → fits_int c → (-1 ≤ mru c < Z.of_nat N)%Z →
  connect c = connect_connectany →
  op (db c) (heap w) = (Returns (Some e), h1) →
  errors_Is e ErrBadConn = true →
  rotation (mru c) N = l1 ++ ix :: l2 →
  Forall (refused c ctx) l1 →
  attempt_at c ctx ix = Connected d →
  ix ≠ mru c →
  match configure c with Some cfg => cfg (Some d) = None | None => True end →
  ∃ evs,
    retry_try (S fuel) ctx (closure op) w =
      retry_try fuel ctx (closure op)
        (World (install d ix (with_db None c)) (tx w) h1 (log w ++ evs)) ∧
    invocations evs = 1 ∧ rotations evs = 1.
Proof.
  intros c N HN Hfits Hmru Hconnect Hop1 Hbad Hrot Hl1 Hat Hix Hcfg.
  assert (¬ refused c ctx ix) as Hnot by (intros [e' He']; congruence).
  destruct (first_settled c ctx l1 ix l2 _ Hl1 Hat Hnot) as (Hs & Hp & Hr).
  set (w1 := World c (tx w) h1 (log w ++ [EvOp (db c)])).
  set (closed := match db c with Some d0 => [EvClose d0] | None => [] end).
  set (w2 := World (with_db None c) (tx w) h1 (log w1 ++ closed)).
  assert (close true w1 = (Ok None, w2)) as Hclose.
  { rewrite close_spec. subst w2 closed w1. cbn [conn tx heap log].
    destruct (db c) as [d0|] eqn:Hdb; [done|].
    rewrite app_nil_r. subst c. destruct w as [[] ? ? ?].
    cbn in *. by rewrite Hdb. }
  pose proof (connectany_spec ctx w2) as Hany. cbn zeta in Hany.
  cbn [conn w2 connectors with_db mru] in Hany. fold c N in Hany.
  specialize (Hany HN Hfits Hmru).
  assert (same_setup c (with_db None c)) as Hsame by (by repeat split).
  destruct (pass_same_setup ctx _ _ (rotation (mru c) N) Hsame)
    as (Hs' & Hp' & Hr' & _).
  destruct (pass_same_setup ctx _ _ (l1 ++ [ix]) Hsame) as (_ & _ & _ & He').
  rewrite Hs', Hp', Hr', Hrot, Hs, Hp, He' in Hany.
  destruct (decide (ix = mru c)); [done|].
  set (evs := [EvOp (db c)] ++ closed ++ EvConnectAny ::
                flat_map (attempt_events c ctx) (l1 ++ [ix]) ++
                match configure c with
                | Some _ => [EvConfigure (Some d)]
                | None => []
                end).
  exists evs. split_and!.
  - cbn [retry_try]. unfold mbind at 1 2 3, M_bind at 1 2 3, get_conn, emit.
    unfold closure at 1. cbn [conn tx heap log]. fold c. rewrite Hop1, Hbad.
    cbn [negb]. fold w1.
    unfold mbind at 1, M_bind at 1, reconnect_with.
    unfold mbind at 1, M_bind at 1. rewrite Hclose.
    unfold connect_with, mbind at 1, M_bind at 1, get_conn.
    cbn [conn w2 connect with_db]. rewrite Hconnect, Hany.
    change (configure (with_db None c)) with (configure c).
    destruct (configure c) as [cfg|]; [rewrite Hcfg|];
      cbn [option_map]; f_equal; subst evs closed w1 w2;
      unfold log_more, with_conn; cbn [conn tx heap log app];
      rewrite <-?app_assoc; cbn [app]; rewrite ?app_nil_r; done.
  - subst evs. rewrite !invocations_app. cbn [app].
    change (EvConnectAny :: ?l) with ([EvConnectAny] ++ l).
    rewrite !invocations_app.
    destruct (attempts_no_invocation c ctx (l1 ++ [ix])) as [-> _].
    subst closed. by destruct (db c), (configure c).
  - subst evs. rewrite !rotations_app. cbn [app].
    change (EvConnectAny :: ?l) with ([EvConnectAny] ++ l).
    rewrite !rotations_app.
    destruct (attempts_no_invocation c ctx (l1 ++ [ix])) as [_ ->].
    subst closed. by destruct (db c), (configure c).
Qed.

Lemma rotation_head m (n : nat) :
  2 ≤ n → (-1 ≤ m < Z.of_nat n)%Z →
  ∃ l, rotation m n = ((m + 1) `mod` Z.of_nat n)%Z :: l ∧
       (0 ≤ (m + 1) `mod` Z.of_nat n < Z.of_nat n)%Z ∧
       ((m + 1) `mod` Z.of_nat n)%Z ≠ m.
Proof.
  intros Hn Hm. rewrite rotation_candidates.
  destruct n as [|n]; [lia|]. cbn [candidates_from]. eexists.
  split; [done|]. split; [apply Z.mod_pos_bound; lia|].
  destruct (decide (m + 1 = Z.of_nat (S n))%Z) as [Heq|Hne].
  - rewrite Heq, Z_mod_same_full. lia.
  - rewrite Z.mod_small by lia. lia.
Qed.

(** X14. The loop of [retry.try] has no bound of its own.  With two or
    more connectors that all open and answer the ping, and an operation
    that fails with a bad connection whenever it is invoked, every turn
    ends in a retry: whatever the number of turns allowed, they are all
    used up, with one invocation and one pass in each, and no result. *)
Theorem retry_try_never_settles fuel ctx
    (op : option sql_DB → U → exit * U) w :
  let c := conn w in
  let N := length (connectors c) in
  2 ≤ N → fits_int c → mru_valid c →
  connect c = connect_connectany →
  match configure c with
  | Some cfg => ∀ d, cfg (Some d) = None
  | None => True
  end →
  (∀ ix, (0 ≤ ix < Z.of_nat N)%Z → ∃ d, attempt_at c ctx ix = Connected d) →
  (∀ d h, ∃ e h', op d h = (Returns (Some e), h') ∧
                  errors_Is e ErrBadConn = true) →
  let r := retry_try fuel ctx (closure op) w in
  r.1 = OutOfFuel ∧
  invocations (since w r.2) = fuel ∧ rotations (since w r.2) = fuel.
Proof.
  intros c N HN Hfits Hvalid Hconnect Hcfg Hup Hop.
  assert (∀ fuel w0,
            same_setup c (conn w0) → mru_valid (conn w0) →
            ∃ evs, (retry_try fuel ctx (closure op) w0).1 = OutOfFuel ∧
                   log (retry_try fuel ctx (closure op) w0).2
                     = log w0 ++ evs ∧
                   invocations evs = fuel ∧ rotations evs = fuel) as Hloop.
  { clear fuel. induction fuel as [|fuel IH]; intros w0 Hsame Hvalid0.
    - exists []. cbn. by rewrite app_nil_r.
    - pose proof Hsame as (Hc & Ho & Hcf & Hcn & _).
      assert (length (connectors (conn w0)) = N) as HN0
        by (subst N; by rewrite Hc).
      assert (-1 ≤ mru (conn w0) < Z.of_nat N)%Z as Hmru0
        by (destruct Hvalid0 as [->|?]; lia).
      destruct (rotation_head (mru (conn w0)) N HN Hmru0)
        as (l2 & Hrot & Hix & Hne).
      set (ix := ((mru (conn w0) + 1) `mod` Z.of_nat N)%Z) in *.
      destruct (Hup ix Hix) as [d Hd].
      destruct (Hop (db (conn w0)) (heap w0)) as (e & h1 & Hop0 & Hbad).
      destruct (retry_try_turn fuel ctx op w0 e h1 [] ix l2 d)
        as (evs & Hturn & Hinv & Hrots).
      + lia.
      + unfold fits_int in *. rewrite Hc. done.
      + lia.
      + by rewrite Hcn.
      + done.
      + done.
      + by rewrite HN0.
      + constructor.
      + by rewrite (attempt_at_same_setup ctx c).
      + done.
      + rewrite Hcf. destruct (configure c); [apply Hcfg|done].
      + rewrite Hturn.
        match goal with
        | |- context [retry_try fuel ctx (closure op) ?w3] =>
            destruct (IH w3) as (evs' & Hout & Hlog & Hinv' & Hrots')
        end.
        * cbn [conn]. eapply same_setup_trans; [exact Hsame|].
          by repeat split.
        * right. cbn. rewrite Hc. subst N. lia.
        * exists (evs ++ evs'). split; [done|]. split.
          -- rewrite Hlog. cbn [log]. by rewrite app_assoc.
          -- rewrite invocations_app, rotations_app. lia. }
  destruct (Hloop fuel w (same_setup_refl c) Hvalid)
    as (evs & Hout & Hlog & Hinv & Hrots).
  cbn zeta. by rewrite (since_log_more evs).
Qed.

(** X13. The operation fails with a bad connection and every connector
    is refused in the pass that follows: [retry.try] returns, after one
    invocation and one pass, the join of the error of the operation and
    a [ConnectionFailedError] with one cause for each connector;
    [errors.Is] finds both in it.  The connection is left without a
    handle, [mru] as it was. *)
Theorem retry_try_all_connectors_fail fuel ctx
    (op : option sql_DB → U → exit * U) w e h1 :
  let c := conn w in
  let N := length (connectors c) in
  1 ≤ N → fits_int c → mru_valid c →
  connect c = connect_connectany →
  op (db c) (heap w) = (Returns (Some e), h1) →
  errors_Is e ErrBadConn = true →
  Forall (refused c ctx) (rotation (mru c) N) →
  ∃ causes w',
    let result :=
      joinError [e; ConnectionFailedError (Some (joinError causes))] in
    retry_try (S fuel) ctx (closure op) w = (Ok (Some result), w') ∧
    length causes = N ∧
    conn w' = with_db None c ∧ heap w' = h1 ∧
    invocations (since w w') = 1 ∧ rotations (since w w') = 1 ∧
    errors_Is result ErrBadConn = true ∧
    errors_Is result (ConnectionFailedError None) = true.
Proof.
  intros c N HN Hfits Hvalid Hconnect Hop1 Hbad Hall.
  assert (-1 ≤ mru c < Z.of_nat N)%Z as Hmru
    by (destruct Hvalid as [->|?]; subst N; lia).
  destruct (all_refused c ctx _ Hall) as (Hs & Hp & Hr).
  set (w1 := World c (tx w) h1 (log w ++ [EvOp (db c)])).
  set (closed := match db c with Some d0 => [EvClose d0] | None => [] end).
  set (w2 := World (with_db None c) (tx w) h1 (log w1 ++ closed)).
  assert (close true w1 = (Ok None, w2)) as Hclose.
  { rewrite close_spec. subst w2 closed w1. cbn [conn tx heap log].
    destruct (db c) as [d0|] eqn:Hdb; [done|].
    rewrite app_nil_r. subst c. destruct w as [[] ? ? ?].
    cbn in *. by rewrite Hdb. }
  pose proof (connectany_spec ctx w2) as Hany. cbn zeta in Hany.
  cbn [conn w2 connectors with_db mru] in Hany. fold c N in Hany.
  assert (0 < N) as HN' by lia.
  specialize (Hany HN' Hfits Hmru).
  assert (same_setup c (with_db None c)) as Hsame by (by repeat split).
  destruct (pass_same_setup ctx _ _ (rotation (mru c) N) Hsame)
    as (Hs' & Hp' & Hr' & He').
  rewrite Hs', Hp', Hr', Hs, Hp, He' in Hany.
  assert (length (refusals c ctx (rotation (mru c) N)) = N) as Hlen.
  { apply Forall2_length in Hr. by rewrite <-Hr, rotation_length. }
  rewrite errors_Join_Some in Hany
    by (intros Hnil; rewrite Hnil in Hlen; cbn in Hlen; lia).
  set (evs := [EvOp (db c)] ++ closed ++ EvConnectAny ::
                flat_map (attempt_events c ctx) (rotation (mru c) N)).
  exists (refusals c ctx (rotation (mru c) N)),
         (World (with_db None c) (tx w) h1 (log w ++ evs)).
  cbn zeta. split_and!; try done.
  - cbn [retry_try]. unfold mbind at 1 2 3, M_bind at 1 2 3, get_conn, emit.
    unfold closure at 1. cbn [conn tx heap log]. fold c. rewrite Hop1, Hbad.
    cbn [negb]. fold w1.
    unfold mbind at 1, M_bind at 1, reconnect_with.
    unfold mbind at 1, M_bind at 1. rewrite Hclose.
    unfold connect_with, mbind at 1, M_bind at 1, get_conn.
    cbn [conn w2 connect with_db]. rewrite Hconnect, Hany.
    unfold mret, M_ret, with_conn, log_more. subst evs w1 w2.
    cbn [conn tx heap log]. by rewrite <-!app_assoc.
  - rewrite (since_log_more evs w) by done. subst evs.
    rewrite !invocations_app. cbn [app].
    change (EvConnectAny :: ?l) with ([EvConnectAny] ++ l).
    rewrite !invocations_app.
    destruct (attempts_no_invocation c ctx (rotation (mru c) N)) as [-> _].
    subst closed. by destruct (db c).
  - rewrite (since_log_more evs w) by done. subst evs.
    rewrite !rotations_app. cbn [app].
    change (EvConnectAny :: ?l) with ([EvConnectAny] ++ l).
    rewrite !rotations_app.
    destruct (attempts_no_invocation c ctx (rotation (mru c) N)) as [_ ->].
    subst closed. by destruct (db c).
  - cbn [errors_Is existsb]. rewrite Hbad. by rewrite !orb_true_r.
  - cbn [errors_Is existsb error_Is]. by rewrite !orb_true_r.
Qed.


(** ** connection.go: more of [Transact] *)

Lemma TransactionError_Is name tag (e : option error) :
  errors_Is (TransactionError name tag e) (TransactionError name tag None)
  = true.
Proof.
  cbn [errors_Is error_Is]. rewrite !bool_decide_eq_true_2 by done.
  cbn [andb]. by rewrite orb_true_r.
Qed.


(** X16. When the transaction cannot be begun, [Transact] returns the
    error of the begin wrapped in a [TransactionError] tagged "begin",
    which [errors.Is] still finds; the unit of work is not called, and
    nothing is committed or rolled back. *)
Theorem Transact_begin_fails fuel ctx name
    (op : option sql_Tx → U → exit * U) w e w1 :
  Transact_begin fuel ctx w = (Ok (Some e), w1) →
  Transact fuel ctx name op w =
    (Ok (Some (TransactionError name "begin" (Some e))), w1) ∧
  Forall connection_event (since w w1) ∧
  errors_Is (TransactionError name "begin" (Some e)) e = true ∧
  errors_Is (TransactionError name "begin" (Some e))
            (TransactionError name "begin" None) = true.
Proof.
  intros Hb. split_and!.
  - unfold Transact, mbind, M_bind. by rewrite Hb.
  - destruct (emits_Transact_begin fuel ctx w) as (evs & Hlog & Hevs).
    rewrite Hb in Hlog. cbn [snd] in Hlog.
    by rewrite (since_log_more evs).
  - cbn [errors_Is]. by rewrite errors_Is_refl, orb_true_r.
  - apply TransactionError_Is.
Qed.

(** X17. When the unit of work returns nil, [Transact] returns what the
    commit gives: nil if the commit succeeds, and otherwise the error of
    the commit wrapped in a [TransactionError] tagged "commit"; after the
    unit of work the only call is the commit. *)
Theorem Transact_commit_result fuel ctx name
    (op : option sql_Tx → U → exit * U) w w1 h :
  Transact_begin fuel ctx w = (Ok None, w1) →
  op (tx w1) (heap w1) = (Returns None, h) →
  ∃ t,
    tx w1 = Some t ∧
    Transact fuel ctx name op w =
      (Ok (option_map (λ e, TransactionError name "commit" (Some e))
                      (Tx_Commit t)),
       World (conn w1) (tx w1) h (log w1 ++ [EvWork (Some t); EvCommit t])).
Proof.
  intros Hb Hop.
  destruct (Transact_begin_tx fuel ctx w w1 Hb) as [t Ht].
  exists t. split; [done|]. rewrite Ht in Hop.
  rewrite (Transact_after_begin fuel ctx name op w w1 Hb).
  by rewrite (Transact_begun_spec name op w1 t _ h Ht Hop).
Qed.



(** ** [NewConnection] when no connector can be opened *)

Lemma open_fails_attempt c ctx (failure : Connector → error) (i : nat) cnc :
  (∀ cnc, cnc ∈ connectors c →
          (open c (Driver cnc) (ConnectionString cnc)).2 = Some (failure cnc)) →
  connectors c !! i = Some cnc →
  attempt_at c ctx (Z.of_nat i)
  = Refused (ConnectionError cnc "open db" (Some (failure cnc))).
Proof.
  intros Hopen Hi. unfold attempt_at.
  destruct (decide (0 ≤ Z.of_nat i)%Z); [|lia].
  rewrite Nat2Z.id, Hi.
  pose proof (Hopen cnc (list_elem_of_lookup_2 _ _ _ Hi)) as Hcnc.
  destruct (open c _ _) as [[d|] [e|]]; cbn in Hcnc; congruence.
Qed.

Lemma open_fails_refusals c ctx (failure : Connector → error)
    (k : nat) (l : list Connector) :
  (∀ cnc, cnc ∈ connectors c →
          (open c (Driver cnc) (ConnectionString cnc)).2 = Some (failure cnc)) →
  drop k (connectors c) = l →
  settled c ctx (seqZ (Z.of_nat k) (Z.of_nat (length l))) = None ∧
  probed c ctx (seqZ (Z.of_nat k) (Z.of_nat (length l)))
    = seqZ (Z.of_nat k) (Z.of_nat (length l)) ∧
  refusals c ctx (seqZ (Z.of_nat k) (Z.of_nat (length l)))
    = (λ cnc, ConnectionError cnc "open db" (Some (failure cnc))) <$> l.
Proof.
  intros Hopen. revert k. induction l as [|x l IH]; intros k Hdrop; [done|].
  assert (connectors c !! k = Some x) as Hk.
  { rewrite <-(Nat.add_0_r k), <-lookup_drop, Hdrop. done. }
  assert (drop (S k) (connectors c) = l) as Hdrop'.
  { change (S k) with (1 + k). rewrite Nat.add_comm, <-drop_drop, Hdrop. done. }
  rewrite seqZ_cons by (cbn [length]; lia).
  replace (Z.succ (Z.of_nat k)) with (Z.of_nat (S k)) by lia.
  replace (Z.pred (Z.of_nat (length (x :: l)))) with (Z.of_nat (length l))
    by (cbn [length]; lia).
  cbn [settled probed refusals fmap list_fmap].
  rewrite (open_fails_attempt c ctx failure k x Hopen Hk).
  destruct (IH (S k) Hdrop') as (-> & -> & ->). done.
Qed.

(** X23. [NewConnection] with connectors none of which can be opened
    returns no connection and a [ConnectionFailedError] whose causes are
    the [ConnectionError]s of the connectors, one each, tagged "open db",
    in the order the connectors were configured. *)
Theorem NewConnection_open_fails fuel ctx (calls : list option_call) w
    (failure : Connector → error) :
  let r := configure_all (configuration_func <$> calls) new_connection in
  r.1 = None → fits_int r.2 → connectors r.2 ≠ [] →
  (∀ cnc, cnc ∈ connectors r.2 →
          (open r.2 (Driver cnc) (ConnectionString cnc)).2
          = Some (failure cnc)) →
  (NewConnection fuel ctx (configuration_func <$> calls) w).1 =
    Ok (false,
        Some (ConnectionFailedError (Some (joinError
          ((λ cnc, ConnectionError cnc "open db" (Some (failure cnc)))
             <$> connectors r.2))))).
Proof.
  cbn zeta. rewrite NewConnection_unfold.
  pose proof (configure_all_mru calls new_connection) as Hmru.
  change (mru new_connection) with (-1)%Z in Hmru.
  destruct (configure_all _ _) as [[e|] c]; cbn [fst snd] in *; [done|].
  intros _ Hfits Hsome Hopen.
  destruct (connectors c) as [|x l] eqn:Hc; [done|]. cbn zeta.
  set (c2 := with_methods connect_connectany
               (match l with [] => noretry | _ => retry end) c).
  destruct (open_fails_refusals c2 ctx failure 0 (connectors c))
    as (Hs & Hp & Hr); [|done|].
  { intros cnc Hin. apply Hopen.
    change (connectors c2) with (connectors c) in Hin. by rewrite Hc in Hin. }
  rewrite connectany_spec; cbn [conn with_conn];
    [|cbn; rewrite Hc; cbn; lia|done|cbn; rewrite Hc, Hmru; cbn; lia].
  change (mru c2) with (mru c). change (connectors c2) with (connectors c).
  rewrite Hmru, rotation_never_connected.
  change (Z.of_nat 0) with 0%Z in Hs, Hr.
  rewrite Hs, Hr, <-Hc. cbn [fst].
  rewrite errors_Join_Some; [done|]. rewrite Hc. done.
Qed.

(** ** [NewConnection] and the handles it opens *)

Lemma opening_connectany_loop ctx n ix errs :
  emits opening_event (connectany_loop ctx n ix errs : M (U:=U) _).
Proof.
  revert ix errs. induction n as [|n IH]; intros ix errs; cbn [connectany_loop].
  - emits.
  - unfold connectors_at. emits.
Qed.

Lemma opening_connectany ctx :
  emits opening_event (connectany ctx : M (U:=U) _).
Proof.
  pose proof (opening_connectany_loop ctx) as Hloop.
  unfold connectany. emits.
Qed.

(** X25. Whatever the options and whatever the outcome, the only calls
    [NewConnection] makes are opens, pings and calls of the configuration
    hook: it never closes a handle, not even one it opened and then
    gives up because the hook rejects it. *)
Theorem NewConnection_never_closes fuel ctx (cfg : list ConfigurationFunc) w :
  ∃ evs,
    log (NewConnection fuel ctx cfg w).2 = log w ++ evs ∧
    Forall opening_event evs ∧
    ∀ d, EvClose d ∉ evs.
Proof.
  assert (∃ evs, log (NewConnection fuel ctx cfg w).2 = log w ++ evs ∧
                 Forall opening_event evs) as (evs & Hlog & Hevs).
  { rewrite NewConnection_unfold.
    destruct (configure_all cfg new_connection) as [[err|] c].
    { exists []. by rewrite app_nil_r. }
    destruct (connectors c) as [|x l].
    { exists []. destruct (db c); by rewrite app_nil_r. }
    cbn zeta.
    match goal with
    | |- context [connectany ctx ?w2] =>
        destruct (opening_connectany ctx w2) as (evs & Hlog & Hevs);
        destruct (connectany ctx w2) as [[[e|]|r|] w3]
    end.
    all: by exists evs. }
  exists evs. split_and!; [done..|].
  intros d Hd. by apply (proj1 (Forall_forall _ _) Hevs) in Hd.
Qed.

End proofs.

(** * [Exec], [Prepare], [Query] and [QueryRow] *)

Section queries_proofs.
Context `{Backend} {R : Type}.
Implicit Types (w : world (U:=option R)).

(** One turn of [retry.try] that ends with a result: the operation
    returns nil, or an error that is not a bad connection. *)
Lemma retry_try_settles fuel ctx
    (op : option sql_DB → option R → exit * option R) w e h :
  op (db (conn w)) (heap w) = (Returns e, h) →
  (∀ x, e = Some x → errors_Is x ErrBadConn = false) →
  retry_try (S fuel) ctx (closure op) w =
    (Ok e, World (conn w) (tx w) h (log w ++ [EvOp (db (conn w))])).
Proof.
  intros Hop Hnot. cbn [retry_try].
  unfold mbind, M_bind, get_conn, emit, closure, mret, M_ret.
  cbn [conn tx heap log]. rewrite Hop.
  destruct e as [x|]; [|done]. by rewrite (Hnot x eq_refl).
Qed.

Lemma Exec_retry fuel ctx (run : sql_DB → option R * option error) w :
  trymethod (conn w) = retry →
  Exec fuel ctx run w =
    match retry_try fuel ctx (closure (query_op run))
            (World (conn w) (tx w) None (log w)) with
    | (Ok err, w') => (Ok (heap w', err), w')
    | (Panic r, w') => (Panic r, w')
    | (OutOfFuel, w') => (OutOfFuel, w')
    end.
Proof.
  intros Htry. unfold Exec.
  unfold mbind at 1, M_bind at 1, set_heap. cbv beta iota.
  unfold mbind at 1, M_bind at 1.
  unfold connection_try, try_with. unfold mbind at 1, M_bind at 1, get_conn.
  cbv beta iota. cbn [conn]. rewrite Htry.
  by destruct (retry_try _ _ _ _) as [[err|r|] w'].
Qed.

(** X24. [Exec] (and [Prepare], [Query], which differ in the call of the
    driver only, and [QueryRow]) on a connection that retries: the
    statement fails with a bad connection on the current handle, the pass
    finds a connector other than the one [mru] points at, and on the new
    handle the statement gives a result and no bad connection error.
    The method returns the result and the error of that second call, and
    the connection is left on the new handle. *)
Theorem Exec_retried fuel ctx (run : sql_DB → option R * option error)
    w d0 e l1 ix l2 d :
  let c := conn w in
  let N := length (connectors c) in
  0 < N → fits_int c → (-1 ≤ mru c < Z.of_nat N)%Z →
  connect c = connect_connectany → trymethod c = retry →
  db c = Some d0 → (run d0).2 = Some e → errors_Is e ErrBadConn = true →
  rotation (mru c) N = l1 ++ ix :: l2 →
  Forall (refused c ctx) l1 →
  attempt_at c ctx ix = Connected d →
  ix ≠ mru c →
  match configure c with Some cfg => cfg (Some d) = None | None => True end →
  (∀ x, (run d).2 = Some x → errors_Is x ErrBadConn = false) →
  let r := Exec (S (S fuel)) ctx run w in
  r.1 = Ok (run d) ∧
  db (conn r.2) = Some d ∧ mru (conn r.2) = ix ∧
  invocations (since w r.2) = 2 ∧ rotations (since w r.2) = 1 ∧
  Prepare (S (S fuel)) ctx run w = r ∧
  Query (S (S fuel)) ctx run w = r ∧
  (∀ (QueryRowContext : sql_DB → R) (Row_Err : R → option error),
     run = (λ d, (Some (QueryRowContext d), Row_Err (QueryRowContext d))) →
     QueryRow (S (S fuel)) ctx QueryRowContext Row_Err w = r).
Proof.
  intros c N HN Hfits Hmru Hconnect Htry Hdb Hrun0 Hbad Hrot Hl1 Hat Hix
    Hcfg Hrun.
  set (w0 := World (U:=option R) c (tx w) None (log w)).
  destruct (retry_try_turn (S fuel) ctx (query_op run) w0 e (run d0).1
              l1 ix l2 d) as (evs & Hturn & Hinv & Hrots); try done.
  { cbn [conn w0 heap]. rewrite Hdb. cbn [query_op]. by rewrite Hrun0. }
  cbn [conn tx w0 log] in Hturn.
  rewrite (retry_try_settles fuel ctx (query_op run) _ (run d).2 (run d).1)
    in Hturn by done.
  cbn [conn tx heap log] in Hturn.
  assert (Exec (S (S fuel)) ctx run w =
            (Ok (run d),
             World (install d ix (with_db None c)) (tx w) (run d).1
                   (log w ++ evs ++ [EvOp (Some d)]))) as Hexec.
  { rewrite (Exec_retry _ _ _ _ Htry). fold c w0. rewrite Hturn.
    cbn [heap]. rewrite <-app_assoc. by destruct (run d). }
  cbn zeta. rewrite Hexec. cbn [fst snd conn].
  rewrite (since_log_more (evs ++ [EvOp (Some d)])) by done.
  rewrite invocations_app, rotations_app, Hinv, Hrots.
  split_and!; try done.
  intros QueryRowContext Row_Err ->. by rewrite <-Hexec.
Qed.

End queries_proofs.

(** * The properties on the sample backend *)

#[local] Existing Instance mock_connectors.
#[local] Existing Instance Sample.backend.

(** C1, the code at the failing input.  The pass starts after "a"; "b"
    refuses; "a", the connector [mru] points at, opens and answers the
    ping.  [connectany] installs its handle and returns a
    [ConnectionFailedError] all the same. *)
Theorem connectany_fails_though_connected :
  let r := connectany Background Sample.world0 in
  attempt_at Sample.two_servers Background 0 = Connected 1 ∧
  r.1 = Ok (Some (ConnectionFailedError (Some (joinError
          [ConnectionError (MockConnector "b") "open db"
             (Some (errorString "open error"))])))) ∧
  db (conn r.2) = Some 1 ∧
  mru (conn r.2) = 0%Z ∧
  opened (log r.2) = [1; 0]%Z.
Proof. vm_compute. done. Qed.

(** C2, the code at the failing input.  The operation fails with a bad
    connection and would succeed when called again; the connector "a" can
    be connected.  [retry.try] makes one pass, which installs a handle of
    "a", and returns the join of the two errors without calling the
    operation again. *)
Theorem retry_try_gives_up_though_connected fuel :
  let r := retry_try (S fuel) Background (closure Sample.flaky) Sample.world0 in
  Sample.flaky (db (conn Sample.world0)) 0 = (Returns (Some ErrBadConn), 1) ∧
  Sample.flaky (Some 1) 1 = (Returns None, 2) ∧
  attempt_at Sample.two_servers Background 0 = Connected 1 ∧
  r.1 = Ok (Some (joinError
          [ErrBadConn;
           ConnectionFailedError (Some (joinError
             [ConnectionError (MockConnector "b") "open db"
                (Some (errorString "open error"))]))])) ∧
  db (conn r.2) = Some 1 ∧
  invocations (log r.2) = 1 ∧
  rotations (log r.2) = 1.
Proof. vm_compute. done. Qed.

(** The same operation on the same servers when [mru] points at "b":
    the pass reaches "a" first and the operation is retried. *)
Example retry_try_rotates_to_other_connector fuel :
  let r := retry_try (S (S fuel)) Background (closure Sample.flaky) Sample.world1 in
  r.1 = Ok None ∧ db (conn r.2) = Some 1 ∧ mru (conn r.2) = 0%Z ∧
  invocations (log r.2) = 2 ∧ rotations (log r.2) = 1.
Proof. vm_compute. done. Qed.

(** C3, as stated, fails: the transaction has begun, the unit of work
    returns nil, and in the whole call no rollback is attempted. *)
Lemma Transact_commit_without_rollback :
  Transact_begin 1 Background Sample.world0 = (Ok None, Sample.world_begun) ∧
  Sample.work_completes (Some 6) 0 = (Returns None, 1) ∧
  let r := Transact 1 Background "test" Sample.work_completes Sample.world0 in
  r.1 = Ok None ∧
  since Sample.world_begun r.2 = [EvWork (Some 6); EvCommit 6] ∧
  rollbacks (since Sample.world0 r.2) = 0 ∧
  rollbacks (since Sample.world0 r.2) ≠ 1.
Proof. vm_compute. repeat split; discriminate. Qed.

(** C6, the code at the failing input.  The transaction has begun; the
    unit of work panics with nil, so that [recover()] returns nil.
    Rollback is attempted once, and [Transact] returns nil: the caller is
    told of no error, and no [TransactionError] tagged "panic" is built. *)
Theorem Transact_nil_panic_returns_nil :
  Transact_begin 1 Background Sample.world0 = (Ok None, Sample.world_begun) ∧
  Sample.work_panics_nil (Some 6) 0 = (Panics None, 1) ∧
  let r := Transact 1 Background "test" Sample.work_panics_nil Sample.world0 in
  r.1 = Ok None ∧
  since Sample.world_begun r.2 = [EvWork (Some 6); EvRollback 6] ∧
  rollbacks (since Sample.world0 r.2) = 1 ∧
  commits (since Sample.world0 r.2) = 0.
Proof. vm_compute. done. Qed.

(** ** The theorems at the sample worlds *)

Lemma Sample_fits_int (c : connection) :
  length (connectors c) = 2 → fits_int c.
Proof. unfold fits_int, int_max. intros ->. lia. Defined.

Lemma Transact_rollback_attempts_witness :
  Transact_begin 1 Background Sample.world0 = (Ok None, Sample.world_begun) ∧
  Sample.work_panics (tx Sample.world_begun) (heap Sample.world_begun)
    = (Panics (Some "at the disco!"), 1) ∧
  ∃ t,
    tx Sample.world_begun = Some t ∧
    let w' := (Transact 1 Background "test" Sample.work_panics Sample.world0).2 in
    since Sample.world_begun w' = [EvWork (Some t); EvRollback t] ∧
    rollbacks (since Sample.world0 w') = 1 ∧
    commits (since Sample.world0 w') = 0.
Proof.
  split_and!; [reflexivity|reflexivity|].
  exact (Transact_rollback_attempts 1 Background "test" Sample.work_panics
           Sample.world0 Sample.world_begun _ _ eq_refl eq_refl).
Defined.

Lemma connectany_all_candidates_fail_witness :
  1 ≤ 2 ∧ fits_int Sample.all_down ∧ mru_valid Sample.all_down ∧
  Forall (refused Sample.all_down Background) (rotation (-1) 2) ∧
  ∃ causes w',
    connectany Background Sample.world_down =
      (Ok (Some (ConnectionFailedError (Some (joinError causes)))), w') ∧
    conn w' = Sample.all_down ∧ mru (conn w') = (-1)%Z ∧
    db (conn w') = None ∧
    length causes = 2 ∧
    Forall2 (λ ix e,
               attempt_at Sample.all_down Background ix = Refused e ∧
               ∃ cnc op err,
                 connectors Sample.all_down !! Z.to_nat ix = Some cnc ∧
                 e = ConnectionError cnc op (Some err))
            (rotation (-1) 2) causes.
Proof.
  assert (1 ≤ 2) as H1 by lia.
  assert (fits_int Sample.all_down) as H2 by (by apply Sample_fits_int).
  assert (mru_valid Sample.all_down) as H3 by (by left).
  assert (Forall (refused Sample.all_down Background) (rotation (-1) 2)) as H4.
  { repeat constructor; eexists; reflexivity. }
  split; [exact H1|]. split; [exact H2|]. split; [exact H3|].
  split; [exact H4|].
  exact (connectany_all_candidates_fail Background Sample.world_down
           H1 H2 H3 H4).
Defined.

Lemma connectany_probe_order_witness :
  fits_int Sample.two_servers ∧ mru_valid Sample.two_servers ∧
  let w' := (connectany Background Sample.world0).2 in
  opened (log w') =
    opened (log Sample.world0) ++
    probed Sample.two_servers Background (rotation 0 2) ∧
  probed Sample.two_servers Background (rotation 0 2)
    `prefix_of` rotation 0 2 ∧
  NoDup (probed Sample.two_servers Background (rotation 0 2)) ∧
  (Forall (refused Sample.two_servers Background) (rotation 0 2) →
   probed Sample.two_servers Background (rotation 0 2) = rotation 0 2) ∧
  length (rotation 0 2) = 2 ∧
  NoDup (rotation 0 2) ∧
  Forall (λ ix, 0 ≤ ix < 2)%Z (rotation 0 2) ∧
  rotation 0 2 = seqZ (0 + 1) (2 - 1 - 0) ++ seqZ 0 (0 + 1) ∧
  (0%Z = (-1)%Z → rotation 0 2 = seqZ 0 2) ∧
  ((0 ≤ 0)%Z → last (rotation 0 2) = Some 0%Z).
Proof.
  assert (fits_int Sample.two_servers) as H1 by (by apply Sample_fits_int).
  assert (mru_valid Sample.two_servers) as H2 by (right; cbn; lia).
  split; [exact H1|]. split; [exact H2|].
  exact (connectany_probe_order Background Sample.world0 H1 H2).
Defined.

Lemma Transact_work_panics_witness :
  Transact_begin 1 Background Sample.world0 = (Ok None, Sample.world_begun) ∧
  Sample.work_panics (tx Sample.world_begun) (heap Sample.world_begun)
    = (Panics (Some "at the disco!"), 1) ∧
  ∃ t w',
    tx Sample.world_begun = Some t ∧
    let panicked :=
      TransactionError "test" "panic" (Some (errorString debug_Stack)) in
    let result :=
      match Tx_Rollback t with
      | None => panicked
      | Some txerr =>
          joinError [panicked; TransactionError "test" "rollback" (Some txerr)]
      end in
    Transact 1 Background "test" Sample.work_panics Sample.world0
      = (Ok (Some result), w') ∧
    since Sample.world_begun w' = [EvWork (Some t); EvRollback t] ∧
    rollbacks (since Sample.world0 w') = 1 ∧
    errors_Is result (TransactionError "test" "panic" None) = true.
Proof.
  split; [reflexivity|]. split; [reflexivity|].
  exact (Transact_work_panics 1 Background "test" Sample.work_panics
           Sample.world0 Sample.world_begun _ _ eq_refl eq_refl).
Defined.

Lemma Transact_work_returns_error_witness :
  Transact_begin 1 Background Sample.world0 = (Ok None, Sample.world_begun) ∧
  Sample.work_fails (tx Sample.world_begun) (heap Sample.world_begun)
    = (Returns (Some Sample.operation_error), 1) ∧
  ∃ t w',
    tx Sample.world_begun = Some t ∧
    let failed := TransactionError "test" untagged (Some Sample.operation_error) in
    let result :=
      match Tx_Rollback t with
      | None => failed
      | Some txerr =>
          joinError [failed; TransactionError "test" "rollback" (Some txerr)]
      end in
    Transact 1 Background "test" Sample.work_fails Sample.world0
      = (Ok (Some result), w') ∧
    since Sample.world_begun w' = [EvWork (Some t); EvRollback t] ∧
    rollbacks (since Sample.world0 w') = 1 ∧
    errors_Is result Sample.operation_error = true.
Proof.
  split; [reflexivity|]. split; [reflexivity|].
  exact (Transact_work_returns_error 1 Background "test" Sample.work_fails
           Sample.world0 Sample.world_begun _ _ eq_refl eq_refl).
Defined.

Lemma retry_try_other_error_witness :
  Sample.malformed (db (conn Sample.world0)) (heap Sample.world0)
    = (Returns (Some Sample.sql_error), 1) ∧
  errors_Is Sample.sql_error ErrBadConn = false ∧
  ∃ w',
    retry_try 1 Background (closure Sample.malformed) Sample.world0
      = (Ok (Some Sample.sql_error), w') ∧
    conn w' = conn Sample.world0 ∧ heap w' = 1 ∧
    since Sample.world0 w' = [EvOp (db (conn Sample.world0))] ∧
    invocations (since Sample.world0 w') = 1 ∧
    rotations (since Sample.world0 w') = 0 ∧
    opened (since Sample.world0 w') = [].
Proof.
  split; [reflexivity|]. split; [reflexivity|].
  exact (retry_try_other_error 0 Background Sample.malformed Sample.world0
           _ _ eq_refl eq_refl).
Defined.

Lemma mru_invariant_witness :
  fits_int (conn Sample.world0) ∧ mru_valid (conn Sample.world0) ∧
  (let w' := (invoke 2 Background (method_retry_try Sample.flaky)
                Sample.world0).2 in
   connectors (conn w') = connectors (conn Sample.world0) ∧
   mru_valid (conn w') ∧
   (mru (conn w') = mru (conn Sample.world0) ∨
    ∃ d, attempt_at (conn Sample.world0) Background (mru (conn w'))
         = Connected d)) ∧
  (∀ calls : list option_call,
     fits_int (configure_all (configuration_func <$> calls) new_connection).2 →
     let w' := (NewConnection 2 Background (configuration_func <$> calls)
                  Sample.world0).2 in
     mru_valid (conn w') ∧
     (mru (conn w') = (-1)%Z ∨
      ∃ d, attempt_at (conn w') Background (mru (conn w')) = Connected d)).
Proof.
  assert (fits_int (conn Sample.world0)) as H1 by (by apply Sample_fits_int).
  assert (mru_valid (conn Sample.world0)) as H2 by (right; cbn; lia).
  split; [exact H1|]. split; [exact H2|].
  exact (mru_invariant 2 Background (method_retry_try Sample.flaky)
           Sample.world0 H1 H2).
Defined.

Lemma configured_connectors_distinct_witness :
  NoDup (connectors new_connection) ∧
  db new_connection = None ∧
  Forall adds_connectors Sample.connector_options ∧
  let r := configure_all (configuration_func <$> Sample.connector_options)
             new_connection in
  NoDup (connectors r.2) ∧
  (∃ applied rest,
     Sample.connector_options = applied ++ rest ∧
     configure_all (configuration_func <$> applied) new_connection
       = (None, r.2) ∧
     connectors r.2
       = dedup_first (connectors new_connection
                      ++ mjoin (added <$> applied)) ∧
     match r.1 with
     | None => rest = []
     | Some err =>
         ∃ o rest',
           rest = o :: rest' ∧
           configuration_func o r.2 = (Some err, r.2) ∧
           (adds_connectors o →
            is_Some (db r.2) ∧ err = ErrWithDbAndWithConnectorsIsInvalid)
     end) ∧
  (∀ o c',
     adds_connectors o → db c' = None →
     (configuration_func o c').1 = None ∧
     connectors (configuration_func o c').2
       = connectors c' ++ dedup_seen (connectors c') (added o) ∧
     ((∀ x, x ∈ added o → x ∈ connectors c') →
      (configuration_func o c').2 = c')) ∧
  (db new_connection = None →
   Forall adds_connectors Sample.connector_options →
   r.1 = None ∧
   connectors r.2
     = dedup_first (connectors new_connection
                    ++ mjoin (added <$> Sample.connector_options))).
Proof.
  assert (NoDup (connectors new_connection)) as H1 by constructor.
  assert (Forall adds_connectors Sample.connector_options) as H2
    by (repeat constructor).
  split; [exact H1|]. split; [reflexivity|]. split; [exact H2|].
  exact (configured_connectors_distinct Sample.connector_options
           new_connection H1).
Defined.

(** The calls of [Sample.connector_options] all return nil, and leave
    each connector once, where it was first named. *)
Example configured_connectors_duplicates_skipped :
  configure_all (configuration_func <$> Sample.connector_options)
    new_connection
  = (None, with_connectors [MockConnector "b"; MockConnector "a"]
             new_connection) ∧
  WithConnector (MockConnector "a")
    (with_connectors [MockConnector "b"; MockConnector "a"] new_connection)
  = (None, with_connectors [MockConnector "b"; MockConnector "a"]
             new_connection).
Proof. split; reflexivity. Qed.

(** The connectors [NewConnection] ends up with for [Sample.options]. *)
Example configured_connectors_sample :
  connectors (configure_all (configuration_func <$> Sample.options)
                new_connection).2
  = [MockConnector "b"; MockConnector "a"].
Proof. reflexivity. Qed.

(** ** More of the package, at the sample worlds *)

Lemma errors_Is_wrapped_witness :
  errors_Is ErrBadConn ErrBadConn = true ∧
  errors_Is (ConfigurationError (Some ErrBadConn)) ErrBadConn = true ∧
  errors_Is (ConnectionFailedError (Some ErrBadConn)) ErrBadConn = true ∧
  (∀ cnc op, errors_Is (ConnectionError cnc op (Some ErrBadConn)) ErrBadConn
             = true) ∧
  (∀ txn op, errors_Is (TransactionError txn op (Some ErrBadConn)) ErrBadConn
             = true) ∧
  (∀ errs, ErrBadConn ∈ errs → errors_Is (joinError errs) ErrBadConn = true).
Proof.
  split; [reflexivity|].
  exact (errors_Is_wrapped ErrBadConn ErrBadConn eq_refl).
Defined.

Lemma configuration_exclusive_witness :
  exclusive new_connection ∧
  exclusive (configure_all (configuration_func <$> Sample.options)
               new_connection).2.
Proof.
  assert (exclusive new_connection) as H1 by (left; reflexivity).
  split; [exact H1|].
  exact (configuration_exclusive Sample.options new_connection H1).
Defined.


Lemma WithConnectors_as_WithConnector_witness :
  (db new_connection = None ∨
   [MockConnector "b"; MockConnector "a"; MockConnector "b"] ≠ []) ∧
  WithConnectors [MockConnector "b"; MockConnector "a"; MockConnector "b"]
    new_connection
  = configure_all
      (WithConnector <$>
         [MockConnector "b"; MockConnector "a"; MockConnector "b"])
      new_connection.
Proof.
  assert (db new_connection = None ∨
          [MockConnector "b"; MockConnector "a"; MockConnector "b"] ≠ [])
    as H1 by (left; reflexivity).
  split; [exact H1|].
  exact (WithConnectors_as_WithConnector _ new_connection H1).
Defined.

Lemma Sample_fits_int_1 (c : connection) :
  length (connectors c) = 1 → fits_int c.
Proof. unfold fits_int, int_max. intros ->. lia. Defined.

Lemma NewConnection_strategy_witness :
  fits_int (configure_all (configuration_func <$> Sample.options)
              new_connection).2 ∧
  NewConnection 1 Background (configuration_func <$> Sample.options)
    Sample.world0 = (Ok (true, None), Sample.world_connected) ∧
  (true = true ↔ @None error = None) ∧
  (true = true →
   connectors (conn Sample.world_connected)
     = [MockConnector "b"; MockConnector "a"] ∧
   configure (conn Sample.world_connected) = None ∧
   pingTimeout (conn Sample.world_connected) = 250%Z ∧
   is_Some (db (conn Sample.world_connected)) ∧
   connect (conn Sample.world_connected) = connect_connectany ∧
   trymethod (conn Sample.world_connected) = retry).
Proof.
  assert (fits_int (configure_all (configuration_func <$> Sample.options)
                      new_connection).2) as H1
    by (by apply Sample_fits_int).
  split; [exact H1|]. split; [reflexivity|].
  exact (NewConnection_strategy 1 Background Sample.options Sample.world0
           true None Sample.world_connected H1 eq_refl).
Defined.

Lemma NewConnection_first_connector_witness :
  fits_int (configure_all (configuration_func <$> Sample.options)
              new_connection).2 ∧
  connectors (configure_all (configuration_func <$> Sample.options)
                new_connection).2 ≠ [] ∧
  NewConnection 1 Background (configuration_func <$> Sample.options)
    Sample.world0 = (Ok (true, None), Sample.world_connected) ∧
  ∃ d,
    db (conn Sample.world_connected) = Some d ∧
    attempt_at (configure_all (configuration_func <$> Sample.options)
                  new_connection).2
               Background (mru (conn Sample.world_connected)) = Connected d ∧
    Forall (refused (configure_all (configuration_func <$> Sample.options)
                       new_connection).2 Background)
           (seqZ 0 (mru (conn Sample.world_connected))) ∧
    True.
Proof.
  assert (fits_int (configure_all (configuration_func <$> Sample.options)
                      new_connection).2) as H1
    by (by apply Sample_fits_int).
  assert (connectors (configure_all (configuration_func <$> Sample.options)
                        new_connection).2 ≠ []) as H2 by discriminate.
  split; [exact H1|]. split; [exact H2|]. split; [reflexivity|].
  exact (NewConnection_first_connector 1 Background Sample.options
           Sample.world0 Sample.world_connected H1 H2 eq_refl).
Defined.

Lemma NewConnection_nothing_configured_witness :
  Forall (λ o : option_call, added o = [] ∧ ∀ d, o ≠ call_WithDb (Some d))
         [call_WithPingTimeout 250; call_WithDb None] ∧
  NewConnection 1 Background
    (configuration_func <$> [call_WithPingTimeout 250; call_WithDb None])
    Sample.world0 =
    (Ok (false,
         Some (ConfigurationError (Some ErrNoConnectorsConfigured))),
     with_conn
       (configure_all
          (configuration_func <$> [call_WithPingTimeout 250; call_WithDb None])
          new_connection).2
       Sample.world0).
Proof.
  assert (Forall (λ o : option_call,
                    added o = [] ∧ ∀ d, o ≠ call_WithDb (Some d))
                 [call_WithPingTimeout 250; call_WithDb None]) as H1
    by (repeat constructor; discriminate).
  split; [exact H1|].
  exact (NewConnection_nothing_configured 1 Background
           [call_WithPingTimeout 250; call_WithDb None] Sample.world0 H1).
Defined.

Lemma single_connector_never_retries_witness :
  fits_int (configure_all
              (configuration_func <$> [call_WithConnector (MockConnector "a")])
              new_connection).2 ∧
  length (connectors
            (configure_all
               (configuration_func <$> [call_WithConnector (MockConnector "a")])
               new_connection).2) ≤ 1 ∧
  NewConnection 1 Background
    (configuration_func <$> [call_WithConnector (MockConnector "a")])
    Sample.world0 = (Ok (true, None), Sample.world_single) ∧
  Sample.flaky (db (conn Sample.world_single)) (heap Sample.world_single)
    = (Returns (Some ErrBadConn), 1) ∧
  connection_try 1 Background (closure Sample.flaky) Sample.world_single =
    (Ok (Some ErrBadConn),
     World (conn Sample.world_single) (tx Sample.world_single) 1
           (log Sample.world_single ++ [EvOp (db (conn Sample.world_single))])).
Proof.
  assert (fits_int
            (configure_all
               (configuration_func <$> [call_WithConnector (MockConnector "a")])
               new_connection).2) as H1
    by (by apply Sample_fits_int_1).
  assert (length (connectors
            (configure_all
               (configuration_func <$> [call_WithConnector (MockConnector "a")])
               new_connection).2) ≤ 1) as H2 by (simpl; lia).
  split; [exact H1|]. split; [exact H2|]. split; [reflexivity|].
  split; [reflexivity|].
  exact (single_connector_never_retries 1 Background
           [call_WithConnector (MockConnector "a")]
           Sample.world0 Sample.world_single Sample.flaky _ _
           H1 H2 eq_refl eq_refl).
Defined.

Lemma connectany_never_connected_witness :
  fits_int (conn Sample.world_down) ∧
  mru (conn Sample.world_down) = (-1)%Z ∧
  connectany Background Sample.world_down =
    (Ok (Some (ConnectionFailedError (Some (joinError
       [ConnectionError (MockConnector "b") "open db"
          (Some (errorString "open error"));
        ConnectionError (MockConnector "c") "open db"
          (Some (errorString "open error"))])))),
     (connectany Background Sample.world_down).2) ∧
  ((∃ e, Some (ConnectionFailedError (Some (joinError
       [ConnectionError (MockConnector "b") "open db"
          (Some (errorString "open error"));
        ConnectionError (MockConnector "c") "open db"
          (Some (errorString "open error"))])))
         = Some (ConnectionFailedError e)) ↔
   Forall (refused Sample.all_down Background) (seqZ 0 2)) ∧
  ((∃ e, Some (ConnectionFailedError (Some (joinError
       [ConnectionError (MockConnector "b") "open db"
          (Some (errorString "open error"));
        ConnectionError (MockConnector "c") "open db"
          (Some (errorString "open error"))])))
         = Some (ConnectionFailedError e)) →
   conn (connectany Background Sample.world_down).2 = Sample.all_down).
Proof.
  assert (fits_int (conn Sample.world_down)) as H1
    by (by apply Sample_fits_int).
  split; [exact H1|]. split; [reflexivity|]. split; [reflexivity|].
  exact (connectany_never_connected Background Sample.world_down _ _
           H1 eq_refl eq_refl).
Defined.

Lemma connectany_first_success_witness :
  0 < 2 ∧ fits_int (conn Sample.world1) ∧ (-1 ≤ 1 < 2)%Z ∧
  rotation 1 2 = [] ++ 0%Z :: [1%Z] ∧
  Forall (refused (conn Sample.world1) Background) [] ∧
  attempt_at (conn Sample.world1) Background 0 = Connected 1 ∧
  0%Z ≠ 1%Z ∧
  (connectany Background Sample.world1).1 = Ok None ∧
  db (conn (connectany Background Sample.world1).2) = Some 1 ∧
  mru (conn (connectany Background Sample.world1).2) = 0%Z ∧
  opened (log (connectany Background Sample.world1).2)
    = opened (log Sample.world1) ++ [] ++ [0%Z].
Proof.
  assert (0 < 2) as H1 by lia.
  assert (fits_int (conn Sample.world1)) as H2 by (by apply Sample_fits_int).
  assert (-1 ≤ 1 < 2)%Z as H3 by lia.
  assert (rotation 1 2 = [] ++ 0%Z :: [1%Z]) as H4 by reflexivity.
  assert (Forall (refused (conn Sample.world1) Background) []) as H5
    by constructor.
  assert (attempt_at (conn Sample.world1) Background 0 = Connected 1) as H6
    by reflexivity.
  assert (0%Z ≠ 1%Z) as H7 by lia.
  split; [exact H1|]. split; [exact H2|]. split; [exact H3|].
  split; [exact H4|]. split; [exact H5|]. split; [exact H6|].
  split; [exact H7|].
  exact (connectany_first_success Background Sample.world1 [] 0 [1%Z] 1
           H1 H2 H3 H4 H5 H6 H7).
Defined.

Lemma retry_try_rotates_once_witness :
  0 < 2 ∧ fits_int (conn Sample.world1) ∧ (-1 ≤ 1 < 2)%Z ∧
  connect (conn Sample.world1) = connect_connectany ∧
  Sample.flaky (db (conn Sample.world1)) (heap Sample.world1)
    = (Returns (Some ErrBadConn), 1) ∧
  errors_Is ErrBadConn ErrBadConn = true ∧
  rotation 1 2 = [] ++ 0%Z :: [1%Z] ∧
  Forall (refused (conn Sample.world1) Background) [] ∧
  attempt_at (conn Sample.world1) Background 0 = Connected 1 ∧
  0%Z ≠ 1%Z ∧
  Sample.flaky (Some 1) 1 = (Returns None, 2) ∧
  ∃ w',
    retry_try 2 Background (closure Sample.flaky) Sample.world1
      = (Ok None, w') ∧
    db (conn w') = Some 1 ∧ mru (conn w') = 0%Z ∧ heap w' = 2 ∧
    invocations (since Sample.world1 w') = 2 ∧
    rotations (since Sample.world1 w') = 1.
Proof.
  assert (0 < 2) as H1 by lia.
  assert (fits_int (conn Sample.world1)) as H2 by (by apply Sample_fits_int).
  assert (-1 ≤ 1 < 2)%Z as H3 by lia.
  assert (rotation 1 2 = [] ++ 0%Z :: [1%Z]) as H4 by reflexivity.
  assert (Forall (refused (conn Sample.world1) Background) []) as H5
    by constructor.
  assert (0%Z ≠ 1%Z) as H7 by lia.
  split; [exact H1|]. split; [exact H2|]. split; [exact H3|].
  split; [reflexivity|]. split; [reflexivity|]. split; [reflexivity|].
  split; [exact H4|]. split; [exact H5|]. split; [reflexivity|].
  split; [exact H7|]. split; [reflexivity|].
  exact (retry_try_rotates_once 0 Background Sample.flaky Sample.world1
           ErrBadConn 1 2 [] 0 [1%Z] 1
           H1 H2 H3 eq_refl eq_refl eq_refl H4 H5 eq_refl H7 I eq_refl).
Defined.

Lemma retry_try_all_connectors_fail_witness :
  1 ≤ 2 ∧ fits_int Sample.all_down ∧ mru_valid Sample.all_down ∧
  connect Sample.all_down = connect_connectany ∧
  Sample.flaky (db Sample.all_down) (heap Sample.world_down)
    = (Returns (Some ErrBadConn), 1) ∧
  errors_Is ErrBadConn ErrBadConn = true ∧
  Forall (refused Sample.all_down Background) (rotation (-1) 2) ∧
  ∃ causes w',
    let result :=
      joinError [ErrBadConn;
                 ConnectionFailedError (Some (joinError causes))] in
    retry_try 1 Background (closure Sample.flaky) Sample.world_down
      = (Ok (Some result), w') ∧
    length causes = 2 ∧
    conn w' = with_db None Sample.all_down ∧ heap w' = 1 ∧
    invocations (since Sample.world_down w') = 1 ∧
    rotations (since Sample.world_down w') = 1 ∧
    errors_Is result ErrBadConn = true ∧
    errors_Is result (ConnectionFailedError None) = true.
Proof.
  assert (1 ≤ 2) as H1 by lia.
  assert (fits_int Sample.all_down) as H2 by (by apply Sample_fits_int).
  assert (mru_valid Sample.all_down) as H3 by (by left).
  assert (Forall (refused Sample.all_down Background) (rotation (-1) 2)) as H4.
  { repeat constructor; eexists; reflexivity. }
  split; [exact H1|]. split; [exact H2|]. split; [exact H3|].
  split; [reflexivity|]. split; [reflexivity|]. split; [reflexivity|].
  split; [exact H4|].
  exact (retry_try_all_connectors_fail 0 Background Sample.flaky
           Sample.world_down ErrBadConn 1
           H1 H2 H3 eq_refl eq_refl eq_refl H4).
Defined.

Lemma retry_try_never_settles_witness :
  2 ≤ 2 ∧ fits_int Sample.both_up ∧ mru_valid Sample.both_up ∧
  connect Sample.both_up = connect_connectany ∧
  (∀ ix, (0 ≤ ix < 2)%Z →
         ∃ d, attempt_at Sample.both_up Background ix = Connected d) ∧
  (∀ d h, ∃ e h', Sample.always_bad d h = (Returns (Some e), h') ∧
                  errors_Is e ErrBadConn = true) ∧
  (retry_try 3 Background (closure Sample.always_bad) Sample.world_up).1
    = OutOfFuel ∧
  invocations
    (since Sample.world_up
       (retry_try 3 Background (closure Sample.always_bad) Sample.world_up).2)
    = 3 ∧
  rotations
    (since Sample.world_up
       (retry_try 3 Background (closure Sample.always_bad) Sample.world_up).2)
    = 3.
Proof.
  assert (2 ≤ 2) as H1 by lia.
  assert (fits_int Sample.both_up) as H2 by (by apply Sample_fits_int).
  assert (mru_valid Sample.both_up) as H3 by (right; simpl; lia).
  assert (∀ ix, (0 ≤ ix < 2)%Z →
            ∃ d, attempt_at Sample.both_up Background ix = Connected d) as H4.
  { intros ix Hix. exists 1.
    assert (ix = 0 ∨ ix = 1)%Z as [->| ->] by lia; reflexivity. }
  assert (∀ d h, ∃ e h', Sample.always_bad d h = (Returns (Some e), h') ∧
                         errors_Is e ErrBadConn = true) as H5.
  { intros d h. exists ErrBadConn, (S h). split; reflexivity. }
  split; [exact H1|]. split; [exact H2|]. split; [exact H3|].
  split; [reflexivity|]. split; [exact H4|]. split; [exact H5|].
  exact (retry_try_never_settles 3 Background Sample.always_bad
           Sample.world_up H1 H2 H3 eq_refl I H4 H5).
Defined.


Lemma Transact_begin_fails_witness :
  @Transact_begin mock_connectors Sample.no_transactions nat
     1 Background Sample.world0
    = (Ok (Some Sample.begin_error),
       World Sample.two_servers None 0 [EvOp (Some 0); EvBeginTx 0]) ∧
  @Transact mock_connectors Sample.no_transactions nat
     1 Background "test" Sample.work_completes Sample.world0 =
    (Ok (Some (TransactionError "test" "begin" (Some Sample.begin_error))),
     World Sample.two_servers None 0 [EvOp (Some 0); EvBeginTx 0]) ∧
  Forall connection_event
    (since Sample.world0
       (World Sample.two_servers None 0 [EvOp (Some 0); EvBeginTx 0])) ∧
  errors_Is (TransactionError "test" "begin" (Some Sample.begin_error))
            Sample.begin_error = true ∧
  errors_Is (TransactionError "test" "begin" (Some Sample.begin_error))
            (TransactionError "test" "begin" None) = true.
Proof.
  split; [reflexivity|].
  exact (@Transact_begin_fails mock_connectors Sample.no_transactions nat
           1 Background "test" Sample.work_completes Sample.world0
           Sample.begin_error _ eq_refl).
Defined.

Lemma Transact_commit_result_witness :
  Transact_begin 1 Background Sample.world0 = (Ok None, Sample.world_begun) ∧
  Sample.work_completes (tx Sample.world_begun) (heap Sample.world_begun)
    = (Returns None, 1) ∧
  ∃ t,
    tx Sample.world_begun = Some t ∧
    Transact 1 Background "test" Sample.work_completes Sample.world0 =
      (Ok (option_map (λ e, TransactionError "test" "commit" (Some e))
                      (Tx_Commit t)),
       World (conn Sample.world_begun) (tx Sample.world_begun) 1
             (log Sample.world_begun ++ [EvWork (Some t); EvCommit t])).
Proof.
  split; [reflexivity|]. split; [reflexivity|].
  exact (Transact_commit_result 1 Background "test" Sample.work_completes
           Sample.world0 Sample.world_begun 1 eq_refl eq_refl).
Defined.


Lemma Ping_live_handle_witness :
  trymethod (conn Sample.world_live) ≠ trymethod_nil ∧
  (trymethod (conn Sample.world_live) = noretry ∨
   ∀ e, DB_PingContext (WithTimeout Background 500000000) 1 = Some e →
        errors_Is e ErrBadConn = false) ∧
  Ping 1 Background Sample.world_live =
    (Ok (DB_PingContext (WithTimeout Background 500000000) 1),
     log_more [EvOp (Some 1); EvPing (WithTimeout Background 500000000) 1]
              Sample.world_live).
Proof.
  assert (trymethod (conn Sample.world_live) ≠ trymethod_nil) as H1
    by discriminate.
  assert (trymethod (conn Sample.world_live) = noretry ∨
          ∀ e, DB_PingContext (WithTimeout Background 500000000) 1 = Some e →
               errors_Is e ErrBadConn = false) as H2
    by (right; intros e; discriminate).
  split; [exact H1|]. split; [exact H2|].
  exact (Ping_live_handle 0 Background Sample.world_live H1 H2).
Defined.

Lemma NewConnection_open_fails_witness :
  (configure_all
     (configuration_func <$>
        [call_WithConnectors [MockConnector "a"; MockConnector "b"];
         call_MockOpenFuncResult None (Some Sample.sql_error)])
     new_connection).1 = None ∧
  fits_int
    (configure_all
       (configuration_func <$>
          [call_WithConnectors [MockConnector "a"; MockConnector "b"];
           call_MockOpenFuncResult None (Some Sample.sql_error)])
       new_connection).2 ∧
  connectors
    (configure_all
       (configuration_func <$>
          [call_WithConnectors [MockConnector "a"; MockConnector "b"];
           call_MockOpenFuncResult None (Some Sample.sql_error)])
       new_connection).2 ≠ [] ∧
  (NewConnection 1 Background
     (configuration_func <$>
        [call_WithConnectors [MockConnector "a"; MockConnector "b"];
         call_MockOpenFuncResult None (Some Sample.sql_error)])
     Sample.world0).1 =
    Ok (false,
        Some (ConnectionFailedError (Some (joinError
          [ConnectionError (MockConnector "a") "open db"
             (Some Sample.sql_error);
           ConnectionError (MockConnector "b") "open db"
             (Some Sample.sql_error)])))).
Proof.
  assert (fits_int
    (configure_all
       (configuration_func <$>
          [call_WithConnectors [MockConnector "a"; MockConnector "b"];
           call_MockOpenFuncResult None (Some Sample.sql_error)])
       new_connection).2) as H2 by (by apply Sample_fits_int).
  assert (connectors
    (configure_all
       (configuration_func <$>
          [call_WithConnectors [MockConnector "a"; MockConnector "b"];
           call_MockOpenFuncResult None (Some Sample.sql_error)])
       new_connection).2 ≠ []) as H3 by discriminate.
  split; [reflexivity|]. split; [exact H2|]. split; [exact H3|].
  exact (NewConnection_open_fails 1 Background
           [call_WithConnectors [MockConnector "a"; MockConnector "b"];
            call_MockOpenFuncResult None (Some Sample.sql_error)]
           Sample.world0 (λ _, Sample.sql_error)
           eq_refl H2 H3 (λ cnc _, eq_refl)).
Defined.

Lemma Exec_retried_witness :
  0 < 2 ∧ fits_int (conn Sample.world_query) ∧ (-1 ≤ 1 < 2)%Z ∧
  connect (conn Sample.world_query) = connect_connectany ∧
  trymethod (conn Sample.world_query) = retry ∧
  db (conn Sample.world_query) = Some 0 ∧
  (Sample.statement 0).2 = Some ErrBadConn ∧
  errors_Is ErrBadConn ErrBadConn = true ∧
  rotation 1 2 = [] ++ 0%Z :: [1%Z] ∧
  Forall (refused (conn Sample.world_query) Background) [] ∧
  attempt_at (conn Sample.world_query) Background 0 = Connected 1 ∧
  0%Z ≠ 1%Z ∧
  (∀ x, (Sample.statement 1).2 = Some x → errors_Is x ErrBadConn = false) ∧
  let r := Exec 2 Background Sample.statement Sample.world_query in
  r.1 = Ok (Some 1, None) ∧
  db (conn r.2) = Some 1 ∧ mru (conn r.2) = 0%Z ∧
  invocations (since Sample.world_query r.2) = 2 ∧
  rotations (since Sample.world_query r.2) = 1 ∧
  Prepare 2 Background Sample.statement Sample.world_query = r ∧
  Query 2 Background Sample.statement Sample.world_query = r ∧
  (∀ (QueryRowContext : sql_DB → nat) (Row_Err : nat → option error),
     Sample.statement
       = (λ d, (Some (QueryRowContext d), Row_Err (QueryRowContext d))) →
     QueryRow 2 Background QueryRowContext Row_Err Sample.world_query = r).
Proof.
  assert (0 < 2) as H1 by lia.
  assert (fits_int (conn Sample.world_query)) as H2
    by (by apply Sample_fits_int).
  assert (-1 ≤ 1 < 2)%Z as H3 by lia.
  assert (rotation 1 2 = [] ++ 0%Z :: [1%Z]) as H4 by reflexivity.
  assert (Forall (refused (conn Sample.world_query) Background) []) as H5
    by constructor.
  assert (0%Z ≠ 1%Z) as H7 by lia.
  assert (∀ x, (Sample.statement 1).2 = Some x →
               errors_Is x ErrBadConn = false) as H8
    by (intros x; discriminate).
  split; [exact H1|]. split; [exact H2|]. split; [exact H3|].
  split; [reflexivity|]. split; [reflexivity|]. split; [reflexivity|].
  split; [reflexivity|]. split; [reflexivity|].
  split; [exact H4|]. split; [exact H5|]. split; [reflexivity|].
  split; [exact H7|]. split; [exact H8|].
  exact (Exec_retried 0 Background Sample.statement Sample.world_query
           0 ErrBadConn [] 0 [1%Z] 1
           H1 H2 H3 eq_refl eq_refl eq_refl eq_refl eq_refl H4 H5 eq_refl
           H7 I H8).
Defined.
